(** * service-loader: fetch, verify, persist

    A shallow embedding of [main.go] of wyattjoh/service-loader.  The
    program downloads [{APP}_{TAG}_{GOOS}_{GOARCH}.tar.gz] from an S3/minio
    bucket, computes its SHA-256, compares it with the [-sha] flag or with
    the first field of [{APP}_{TAG}_{GOOS}_{GOARCH}.sha256], and saves the
    archive to the working directory.

    Go strings are modelled as [string] (a sequence of 8-bit characters),
    byte slices and buffer contents as [list byte].  Buffers and hashes
    are cells of a heap addressed by pointers, so that what one call does
    to [archive] is seen by the next.  The remote store, the file system
    and standard output are an explicit state threaded through a small
    reader-state monad whose results are either a value or a Go panic.

    The parts of the Go library that [main.go] calls are modelled beside
    it under the names of their packages: [crypto/sha256], [encoding/hex],
    [unicode/utf8], [unicode], [strings], [fmt], [io] and [bytes], and the
    two collaborators [minio] and [os].

    The command line is modelled on top of this: [main], with [usage],
    [defaultOS] and [exit], runs in a process that has environment
    variables, arguments, a standard error and an exit status, and the
    string flags of the [flag] package are modelled as far as [main.go]
    uses them. *)

From Stdlib Require Import NArith.
From Stdlib Require Import Strings.Byte Strings.Ascii Strings.String.
From stdpp Require Import gmap strings list fin_maps.

Local Open Scope N_scope.

(** ** Bytes *)

Definition byte_of_N (n : N) : byte :=
  match Byte.of_N (n mod 256) with
  | Some b => b
  | None => x00
  end.

Definition N_of_char (c : ascii) : N := Byte.to_N (byte_of_ascii c).

(** [string(b)] and [[]byte(s)] conversions. *)
Definition string_of_bytes (b : list byte) : string := string_of_list_byte b.
Definition bytes_of_string (s : string) : list byte := list_byte_of_string s.

(** ** Errors, the outside world and the monad of effects *)

(** An [error] value is either made by this program or the Go library
    ([errors.New], [fmt.Errorf]) or handed over by minio-go or the
    operating system. *)
Inductive error :=
| errorString (s : string)
| externalError (s : string).

Module errors.
Definition New (text : string) : error := errorString text.
End errors.

(** Calls that leave the process, in program order. *)
Inductive event :=
| EvStdout (s : string)
| EvGetObject (bucketName objectName : string)
| EvCreate (name : string)
| EvWrite (name : string) (p : list byte).

(** A [bytes.Buffer]: the unread portion is [buf[off:]]. *)
Record Buffer := mkBuffer { buf : list byte; off : nat }.

(** Heap cells: buffers and SHA-256 hash states (the bytes written so
    far). *)
Inductive object :=
| OBuffer (b : Buffer)
| ODigest (written : list byte).

Inductive BufferPtr := BufferAt (l : nat).   (* *bytes.Buffer *)
Inductive Hash := HashAt (l : nat).          (* hash.Hash from sha256.New *)
Inductive File := FileOf (name : string).    (* *os.File open for writing *)

Record Client := mkClient {
  client_endpoint : string;
  client_accessKeyID : string;
  client_secretAccessKey : string;
  client_secure : bool
}.

(** A [*minio.Object]: reading it yields [obj_data] and then end of file
    or the error [obj_err]. *)
Record Object := mkObject { obj_data : list byte; obj_err : option string }.

(** What the collaborators answer: the object store and the file system. *)
Record Env := mkEnv {
  env_New : string -> string -> string -> bool -> option string;
  env_GetObject : Client -> string -> string -> Object + string;
  env_Create : string -> option string;
  env_Write : string -> list byte -> nat * option string
}.

Record world := mkWorld {
  trace : list event;
  files : gmap string (list byte);
  heap : gmap nat object;
  next : nat
}.

Inductive outcome (A : Type) :=
| Val (a : A)
| Panic (msg : string).
Arguments Val {A} a.
Arguments Panic {A} msg.

Definition M (A : Type) : Type := Env -> world -> outcome A * world.

#[global] Instance M_ret : MRet M := fun A a _ w => (Val a, w).
#[global] Instance M_bind : MBind M := fun A B f m env w =>
  match m env w with
  | (Val a, w') => f a env w'
  | (Panic msg, w') => (Panic msg, w')
  end.

Definition panic {A} (msg : string) : M A := fun _ w => (Panic msg, w).
Definition ask : M Env := fun env w => (Val env, w).
Definition emit (e : event) : M unit := fun _ w =>
  (Val tt, mkWorld (trace w ++ [e]) (files w) (heap w) (next w)).
Definition alloc (o : object) : M nat := fun _ w =>
  (Val (next w), mkWorld (trace w) (files w) (<[next w := o]> (heap w)) (S (next w))).
Definition load (l : nat) : M object := fun _ w =>
  match heap w !! l with
  | Some o => (Val o, w)
  | None => (Panic "invalid memory address or nil pointer dereference", w)
  end.
Definition store (l : nat) (o : object) : M unit := fun _ w =>
  (Val tt, mkWorld (trace w) (files w) (<[l := o]> (heap w)) (next w)).
Definition get_files : M (gmap string (list byte)) := fun _ w => (Val (files w), w).
Definition put_files (fs : gmap string (list byte)) : M unit := fun _ w =>
  (Val tt, mkWorld (trace w) fs (heap w) (next w)).

(** ** io *)

Module io.

Definition ErrShortWrite : error := errors.New "short write".

Class Writer (W : Type) := Write : W -> list byte -> M (nat * option error).

(** [Copy dst src] dispatches on the dynamic types: [src.WriteTo(dst)]
    when the source has it, else [dst.ReadFrom(src)], else a read/write
    loop.  [copy] is that behaviour for each reader type. *)
Class Reader (R : Type) :=
  copy : forall {W} `{Writer W}, W -> R -> M (nat * option error).

Definition Copy {W R} `{Writer W} `{Reader R} (dst : W) (src : R)
    : M (nat * option error) :=
  copy dst src.

End io.

(** ** crypto/sha256 *)

Module sha256.

Definition w32 (x : N) : N := N.land x 0xffffffff.

Definition add32 (x y : N) : N := w32 (x + y).

Definition rotr (n x : N) : N :=
  N.lor (N.shiftr x n) (w32 (N.shiftl x (32 - n))).

Definition not32 (x : N) : N := N.lxor x 0xffffffff.

Definition Ch (x y z : N) : N := N.lxor (N.land x y) (N.land (not32 x) z).
Definition Maj (x y z : N) : N :=
  N.lxor (N.lxor (N.land x y) (N.land x z)) (N.land y z).
Definition bsig0 (x : N) : N := N.lxor (N.lxor (rotr 2 x) (rotr 13 x)) (rotr 22 x).
Definition bsig1 (x : N) : N := N.lxor (N.lxor (rotr 6 x) (rotr 11 x)) (rotr 25 x).
Definition ssig0 (x : N) : N := N.lxor (N.lxor (rotr 7 x) (rotr 18 x)) (N.shiftr x 3).
Definition ssig1 (x : N) : N := N.lxor (N.lxor (rotr 17 x) (rotr 19 x)) (N.shiftr x 10).

(** Words written in hexadecimal, separated by single spaces. *)
Definition hex_value (c : ascii) : N :=
  let n := N_of_char c in
  if n <? 58 then n - 48 else n - 87.

Fixpoint hex_words (s : string) (acc : N) : list N :=
  match s with
  | EmptyString => [acc]
  | String " "%char t => acc :: hex_words t 0
  | String c t => hex_words t (16 * acc + hex_value c)
  end.

(** The round constants [_K] of [sha256block.go]. *)
Definition _K : list N :=
  hex_words
    ("428a2f98 71374491 b5c0fbcf e9b5dba5 3956c25b 59f111f1 923f82a4 ab1c5ed5 " +:+
     "d807aa98 12835b01 243185be 550c7dc3 72be5d74 80deb1fe 9bdc06a7 c19bf174 " +:+
     "e49b69c1 efbe4786 0fc19dc6 240ca1cc 2de92c6f 4a7484aa 5cb0a9dc 76f988da " +:+
     "983e5152 a831c66d b00327c8 bf597fc7 c6e00bf3 d5a79147 06ca6351 14292967 " +:+
     "27b70a85 2e1b2138 4d2c6dfc 53380d13 650a7354 766a0abb 81c2c92e 92722c85 " +:+
     "a2bfe8a1 a81a664b c24b8b70 c76c51a3 d192e819 d6990624 f40e3585 106aa070 " +:+
     "19a4c116 1e376c08 2748774c 34b0bcb5 391c0cb3 4ed8aa4a 5b9cca4f 682e6ff3 " +:+
     "748f82ee 78a5636f 84c87814 8cc70208 90befffa a4506ceb bef9a3f7 c67178f2")
    0.

(** The eight chaining words [h[0..7]] of the Go [digest] struct. *)
Record digest := mkDigest {
  h0 : N; h1 : N; h2 : N; h3 : N; h4 : N; h5 : N; h6 : N; h7 : N
}.

Definition init : digest :=
  mkDigest 0x6a09e667 0xbb67ae85 0x3c6ef372 0xa54ff53a
           0x510e527f 0x9b05688c 0x1f83d9ab 0x5be0cd19.

(** Big-endian word of four bytes, and back. *)
Definition be32 (b0 b1 b2 b3 : byte) : N :=
  N.lor (N.lor (N.shiftl (Byte.to_N b0) 24) (N.shiftl (Byte.to_N b1) 16))
        (N.lor (N.shiftl (Byte.to_N b2) 8) (Byte.to_N b3)).

Definition putUint32 (w : N) : list byte :=
  [ byte_of_N (N.shiftr w 24); byte_of_N (N.shiftr w 16);
    byte_of_N (N.shiftr w 8); byte_of_N w ].

Definition putUint64 (w : N) : list byte :=
  putUint32 (N.shiftr w 32) ++ putUint32 w.

(** The first sixteen schedule words of one 64-byte chunk. *)
Fixpoint words (p : list byte) : list N :=
  match p with
  | b0 :: b1 :: b2 :: b3 :: rest => be32 b0 b1 b2 b3 :: words rest
  | _ => []
  end.

(** Extend the schedule by [n] words; [w] holds the words so far, most
    recent first. *)
Fixpoint extend (n : nat) (w : list N) : list N :=
  match n with
  | O => w
  | S n' =>
      let v1 := ssig1 (nth 1 w 0) in
      let v2 := ssig0 (nth 14 w 0) in
      extend n' (add32 (add32 (add32 v1 (nth 6 w 0)) v2) (nth 15 w 0) :: w)
  end.

Definition schedule (chunk : list byte) : list N :=
  rev (extend 48 (rev (words chunk))).

Definition round (d : digest) (kw : N * N) : digest :=
  let '(mkDigest a b c d e f g h) := d in
  let t1 := add32 (add32 (add32 (add32 h (bsig1 e)) (Ch e f g)) kw.1) kw.2 in
  let t2 := add32 (bsig0 a) (Maj a b c) in
  mkDigest (add32 t1 t2) a b c (add32 d t1) e f g.

(** One call of [block] on a single chunk. *)
Definition block1 (d : digest) (chunk : list byte) : digest :=
  let r := foldl round d (zip _K (schedule chunk)) in
  mkDigest (add32 (h0 d) (h0 r)) (add32 (h1 d) (h1 r))
           (add32 (h2 d) (h2 r)) (add32 (h3 d) (h3 r))
           (add32 (h4 d) (h4 r)) (add32 (h5 d) (h5 r))
           (add32 (h6 d) (h6 r)) (add32 (h7 d) (h7 r)).

(** [block] over [n] consecutive 64-byte chunks of [p]. *)
Fixpoint block (n : nat) (d : digest) (p : list byte) : digest :=
  match n with
  | O => d
  | S n' => block n' (block1 d (take 64 p)) (drop 64 p)
  end.

(** Padding of [checkSum]: 0x80, zeros up to 56 mod 64, bit length. *)
Definition padding (len : N) : list byte :=
  let r := len mod 64 in
  let zeros := if r <? 56 then 55 - r else 119 - r in
  x80 :: replicate (N.to_nat zeros) x00 ++ putUint64 (N.shiftl len 3).

(** The digest of everything written to a hash: [Sum256]. *)
Definition Sum256 (p : list byte) : list byte :=
  let m := p ++ padding (N.of_nat (length p)) in
  let d := block (length m / 64)%nat init m in
  putUint32 (h0 d) ++ putUint32 (h1 d) ++ putUint32 (h2 d) ++ putUint32 (h3 d) ++
  putUint32 (h4 d) ++ putUint32 (h5 d) ++ putUint32 (h6 d) ++ putUint32 (h7 d).

(** [New] allocates a hash; [Write] never returns an error; [Sum]
    appends the digest of the bytes written so far to [b]. *)
Definition New : M Hash :=
  l ← alloc (ODigest []);
  mret (HashAt l).

Definition written (h : Hash) : M (list byte) :=
  let 'HashAt l := h in
  o ← load l;
  match o with
  | ODigest p => mret p
  | OBuffer _ => panic "invalid memory address or nil pointer dereference"
  end.

Definition Write (h : Hash) (p : list byte) : M (nat * option error) :=
  let 'HashAt l := h in
  x ← written h;
  store l (ODigest (x ++ p));;
  mret (length p, None).

#[global] Instance Hash_Writer : io.Writer Hash := Write.

Definition Sum (h : Hash) (b : list byte) : M (list byte) :=
  x ← written h;
  mret (b ++ Sum256 x).

End sha256.

(** ** encoding/hex *)

Module hex.

Definition hextable : string := "0123456789abcdef".

Definition digit (n : N) : ascii :=
  match String.get (N.to_nat n) hextable with
  | Some c => c
  | None => "0"%char
  end.

Fixpoint EncodeToString (src : list byte) : string :=
  match src with
  | [] => EmptyString
  | v :: rest =>
      String (digit (N.shiftr (Byte.to_N v) 4))
        (String (digit (N.land (Byte.to_N v) 0x0f)) (EncodeToString rest))
  end.

End hex.

(** ** Slicing of Go strings *)

Fixpoint str_take (n : nat) (s : string) : string :=
  match n, s with
  | S n', String c t => String c (str_take n' t)
  | _, _ => EmptyString
  end.

Fixpoint str_drop (n : nat) (s : string) : string :=
  match n, s with
  | S n', String _ t => str_drop n' t
  | _, _ => s
  end.

(** [s[lo:hi]] for [lo <= hi <= len(s)]. *)
Definition slice (s : string) (lo hi : nat) : string :=
  str_take (hi - lo) (str_drop lo s).

(** ** unicode/utf8 and unicode *)

Module utf8.

Definition RuneError : N := 0xfffd.
Definition RuneSelf : N := 0x80.

(** The [first] table with [acceptRanges] folded in: for a leading byte
    of a multi-byte sequence, its length and the range allowed for the
    second byte; [None] for ASCII and for invalid leading bytes. *)
Definition first (s0 : N) : option (nat * N * N) :=
  if s0 <? 0xc2 then None
  else if s0 <? 0xe0 then Some (2%nat, 0x80, 0xbf)
  else if s0 =? 0xe0 then Some (3%nat, 0xa0, 0xbf)
  else if s0 =? 0xed then Some (3%nat, 0x80, 0x9f)
  else if s0 <? 0xf0 then Some (3%nat, 0x80, 0xbf)
  else if s0 =? 0xf0 then Some (4%nat, 0x90, 0xbf)
  else if s0 <? 0xf4 then Some (4%nat, 0x80, 0xbf)
  else if s0 =? 0xf4 then Some (4%nat, 0x80, 0x8f)
  else None.

Definition cont (b : N) : bool := (0x80 <=? b) && (b <=? 0xbf).
Definition low (mask b : N) : N := N.land b mask.

(** [DecodeRuneInString]: the first rune of [s] and its width in bytes. *)
Definition DecodeRuneInString (s : string) : N * nat :=
  match s with
  | EmptyString => (RuneError, 0%nat)
  | String c0 t =>
      let s0 := N_of_char c0 in
      match first s0 with
      | None => (if s0 <? RuneSelf then s0 else RuneError, 1%nat)
      | Some (sz, lo, hi) =>
          if (String.length s <? sz)%nat then (RuneError, 1%nat) else
          match t with
          | EmptyString => (RuneError, 1%nat)
          | String c1 t1 =>
              let s1 := N_of_char c1 in
              if (s1 <? lo) || (hi <? s1) then (RuneError, 1%nat) else
              if (sz <=? 2)%nat then
                (N.lor (N.shiftl (low 0x1f s0) 6) (low 0x3f s1), 2%nat)
              else
              match t1 with
              | EmptyString => (RuneError, 1%nat)
              | String c2 t2 =>
                  let s2 := N_of_char c2 in
                  if negb (cont s2) then (RuneError, 1%nat) else
                  if (sz <=? 3)%nat then
                    (N.lor (N.lor (N.shiftl (low 0x0f s0) 12)
                                  (N.shiftl (low 0x3f s1) 6))
                           (low 0x3f s2), 3%nat)
                  else
                  match t2 with
                  | EmptyString => (RuneError, 1%nat)
                  | String c3 _ =>
                      let s3 := N_of_char c3 in
                      if negb (cont s3) then (RuneError, 1%nat) else
                      (N.lor (N.lor (N.shiftl (low 0x07 s0) 18)
                                    (N.shiftl (low 0x3f s1) 12))
                             (N.lor (N.shiftl (low 0x3f s2) 6)
                                    (low 0x3f s3)), 4%nat)
                  end
              end
          end
      end
  end.

(** The runes of [s] in order, each with the bytes that encode it.
    [n] bounds the number of runes; [String.length s] always suffices
    since every rune is at least one byte wide. *)
Fixpoint decode (n : nat) (s : string) : list (N * string) :=
  match n, s with
  | S n', String _ _ =>
      let '(r, sz) := DecodeRuneInString s in
      (r, str_take sz s) :: decode n' (str_drop sz s)
  | _, _ => []
  end.

Definition runes (s : string) : list (N * string) :=
  decode (String.length s) s.

(** [for i, r := range s]: byte offset and rune of each iteration. *)
Fixpoint offsets (i : nat) (cs : list (N * string)) : list (nat * N) :=
  match cs with
  | [] => []
  | (r, b) :: cs' => (i, r) :: offsets (i + String.length b) cs'
  end.

Definition range (s : string) : list (nat * N) := offsets 0 (runes s).

End utf8.

Module unicode.

Definition MaxLatin1 : N := 0xff.

(** The [White_Space] range table above Latin-1. *)
Definition White_Space_above_Latin1 (r : N) : bool :=
  (r =? 0x1680) || ((0x2000 <=? r) && (r <=? 0x200a)) ||
  ((0x2028 <=? r) && (r <=? 0x2029)) || (r =? 0x202f) ||
  (r =? 0x205f) || (r =? 0x3000).

Definition IsSpace (r : N) : bool :=
  if r <=? MaxLatin1 then
    (r =? 0x09) || (r =? 0x0a) || (r =? 0x0b) || (r =? 0x0c) ||
    (r =? 0x0d) || (r =? 0x20) || (r =? 0x85) || (r =? 0xa0)
  else White_Space_above_Latin1 r.

End unicode.

(** ** strings *)

Module strings.

(** The loop of [FieldsFunc]: [fieldStart] is [None] while looking for
    the start of a field (Go keeps -1 there). *)
Fixpoint FieldsFunc_loop (s : string) (f : N -> bool)
    (it : list (nat * N)) (fieldStart : option nat) : list string :=
  match it with
  | [] =>
      match fieldStart with
      | Some st => [slice s st (String.length s)]
      | None => []
      end
  | (i, r) :: it' =>
      if f r then
        match fieldStart with
        | Some st => slice s st i :: FieldsFunc_loop s f it' None
        | None => FieldsFunc_loop s f it' None
        end
      else
        match fieldStart with
        | Some _ => FieldsFunc_loop s f it' fieldStart
        | None => FieldsFunc_loop s f it' (Some i)
        end
  end.

Definition FieldsFunc (s : string) (f : N -> bool) : list string :=
  FieldsFunc_loop s f (utf8.range s) None.

(** [Fields] splits around runs of white space as defined by
    [unicode.IsSpace]. *)
Definition Fields (s : string) : list string :=
  FieldsFunc s unicode.IsSpace.

End strings.

(** ** fmt *)

Definition LF : string := String "010"%char EmptyString.

Module fmt.

(** Operands left over after the format is exhausted. *)
Fixpoint extra_operands (a : list string) : string :=
  match a with
  | [] => ""
  | [x] => "string=" +:+ x
  | x :: a' => "string=" +:+ x +:+ ", " +:+ extra_operands a'
  end.

(** [Sprintf] for string operands and the verbs [main.go] uses: [%s]
    and the literal [%%]. *)
Fixpoint Sprintf (format : string) (a : list string) : string :=
  match format with
  | EmptyString =>
      match a with
      | [] => ""
      | _ => "%!(EXTRA " +:+ extra_operands a +:+ ")"
      end
  | String "%"%char (String "s"%char rest) =>
      match a with
      | x :: a' => x +:+ Sprintf rest a'
      | [] => "%!s(MISSING)" +:+ Sprintf rest []
      end
  | String "%"%char (String "%"%char rest) => String "%"%char (Sprintf rest a)
  | String c rest => String c (Sprintf rest a)
  end.

Definition Printf (format : string) (a : list string) : M unit :=
  emit (EvStdout (Sprintf format a)).

Definition Errorf (format : string) (a : list string) : error :=
  errors.New (Sprintf format a).

End fmt.

(** ** bytes *)

Module bytes.

Definition deref (b : BufferPtr) : M Buffer :=
  let 'BufferAt l := b in
  o ← load l;
  match o with
  | OBuffer s => mret s
  | ODigest _ => panic "invalid memory address or nil pointer dereference"
  end.

Definition assign (b : BufferPtr) (s : Buffer) : M unit :=
  let 'BufferAt l := b in store l (OBuffer s).

Definition NewBuffer (p : list byte) : M BufferPtr :=
  l ← alloc (OBuffer (mkBuffer p 0));
  mret (BufferAt l).

Definition Len (b : BufferPtr) : M nat :=
  s ← deref b;
  mret (length (buf s) - off s)%nat.

(** [string(b.buf[b.off:])] *)
Definition String (b : BufferPtr) : M string :=
  s ← deref b;
  mret (string_of_bytes (drop (off s) (buf s))).

Definition Reset (b : BufferPtr) : M unit :=
  assign b (mkBuffer [] 0).

Definition Write (b : BufferPtr) (p : list byte) : M (nat * option error) :=
  s ← deref b;
  assign b (mkBuffer (buf s ++ p) (off s));;
  mret (length p, None).

#[global] Instance Buffer_Writer : io.Writer BufferPtr := Write.

(** Writes the unread portion to [w] in one [Write] and drains the
    buffer. *)
Definition WriteTo {W} `{io.Writer W} (b : BufferPtr) (w : W)
    : M (nat * option error) :=
  nBytes ← Len b;
  if (0 <? nBytes)%nat then
    s ← deref b;
    '(m, e) ← io.Write w (drop (off s) (buf s));
    if (nBytes <? m)%nat then panic "bytes.Buffer.WriteTo: invalid Write count" else
    s' ← deref b;
    assign b (mkBuffer (buf s') (off s' + m));;
    match e with
    | Some e => mret (m, Some e)
    | None =>
        if negb (m =? nBytes)%nat then mret (m, Some io.ErrShortWrite) else
        Reset b;;
        mret (m, None)
    end
  else
    Reset b;;
    mret (0%nat, None).

#[global] Instance Buffer_Reader : io.Reader BufferPtr :=
  fun W _ w b => WriteTo b w.

End bytes.

(** ** minio-go and os: the external collaborators *)

Module minio.

Definition New (endpoint accessKeyID secretAccessKey : string) (secure : bool)
    : M (Client + error) :=
  env ← ask;
  match env_New env endpoint accessKeyID secretAccessKey secure with
  | Some e => mret (inr (externalError e))
  | None => mret (inl (mkClient endpoint accessKeyID secretAccessKey secure))
  end.

Definition GetObject (c : Client) (bucketName objectName : string)
    : M (Object + error) :=
  env ← ask;
  emit (EvGetObject bucketName objectName);;
  match env_GetObject env c bucketName objectName with
  | inl o => mret (inl o)
  | inr e => mret (inr (externalError e))
  end.

(** Copying out of an object: everything read goes to the writer, then
    the read error, if any, is reported. *)
#[global] Instance Object_Reader : io.Reader Object :=
  fun W _ w o =>
    '(n, e) ← io.Write w (obj_data o);
    match e with
    | Some e => mret (n, Some e)
    | None =>
        if (n <? length (obj_data o))%nat then mret (n, Some io.ErrShortWrite) else
        mret (n, externalError <$> obj_err o)
    end.

End minio.

Module os.

(** [Create] creates or truncates the named file. *)
Definition Create (name : string) : M (File + error) :=
  env ← ask;
  emit (EvCreate name);;
  match env_Create env name with
  | Some e => mret (inr (externalError e))
  | None =>
      fs ← get_files;
      put_files (<[name := []]> fs);;
      mret (inl (FileOf name))
  end.

Definition Write (f : File) (p : list byte) : M (nat * option error) :=
  let 'FileOf name := f in
  env ← ask;
  emit (EvWrite name p);;
  let '(n, e) := env_Write env name p in
  fs ← get_files;
  put_files (<[name := default [] (fs !! name) ++ take n p]> fs);;
  mret (n, externalError <$> e).

#[global] Instance File_Writer : io.Writer File := Write.

End os.

(** ** main.go *)

Definition errChecksumMismatch : error := errors.New "checksum mismatch".

Definition generateSha256 {R} `{io.Reader R} (buf : R) : M (string + error) :=
  h ← sha256.New;
  '(_, err) ← io.Copy h buf;
  match err with
  | Some e => mret (inr e)
  | None =>
      d ← sha256.Sum h [];
      mret (inl (hex.EncodeToString d))
  end.

Module runOps.
Record t := mk {
  app : string;       (* application to load *)
  tag : string;       (* tag to reference *)
  endpoint : string;  (* aws/minio endpoint *)
  bucket : string;    (* aws/minio bucket where archives exist *)
  id : string;        (* AWS_ACCESS_KEY_ID to access aws/minio *)
  key : string;       (* AWS_SECRET_ACCESS_KEY to access aws/minio *)
  os : string;        (* os to use to load the archive with *)
  arch : string;      (* arch to use to load the archive with *)
  sha : string        (* optional sha to compare with instead of loading the file *)
}.
End runOps.

Definition download (client : Client) (bucket fileName : string)
    : M (BufferPtr + error) :=
  r ← minio.GetObject client bucket fileName;
  match r with
  | inr err => mret (inr err)
  | inl file =>
      buf ← bytes.NewBuffer [];
      '(_, err) ← io.Copy buf file;
      match err with
      | Some e => mret (inr e)
      | None => mret (inl buf)
      end
  end.

(** The three names [run] derives from its options. *)
Definition fileName (opts : runOps.t) : string :=
  fmt.Sprintf "%s_%s_%s_%s"
    [runOps.app opts; runOps.tag opts; runOps.os opts; runOps.arch opts].

Definition tarKey (opts : runOps.t) : string := fileName opts +:+ ".tar.gz".

Definition checksumKey (opts : runOps.t) : string := fileName opts +:+ ".sha256".

(** [a[0]] on a slice of strings. *)
Definition index0 (a : list string) : M string :=
  match a with
  | x :: _ => mret x
  | [] => panic "runtime error: index out of range [0] with length 0"
  end.

(** The body of [if opts.sha == ""] in [run]: the value assigned to
    [opts.sha], or the error returned from [run]. *)
Definition run_remoteSha (minioClient : Client) (opts : runOps.t)
    : M (string + error) :=
  fmt.Printf ("## Downloading Checksum: %s/%s" +:+ LF)
    [runOps.bucket opts; checksumKey opts];;
  r ← download minioClient (runOps.bucket opts) (checksumKey opts);
  match r with
  | inr _ =>
      mret (inr (fmt.Errorf "Can't download checksum from %s/%s"
                   [runOps.bucket opts; checksumKey opts]))
  | inl remoteSha256 =>
      text ← bytes.String remoteSha256;
      sha ← index0 (strings.Fields text);
      fmt.Printf ("## Done" +:+ LF +:+ LF) [];;
      mret (inl sha)
  end.

(** The end of [run], after the PASS line: the archive is saved under
    its key. *)
Definition run_save (opts : runOps.t) (archive : BufferPtr) : M (option error) :=
  fmt.Printf ("## Saving Archive to %s" +:+ LF) [tarKey opts];;
  r ← os.Create (tarKey opts);
  match r with
  | inr err => mret (Some err)
  | inl archiveFile =>
  '(_, err) ← io.Copy archiveFile archive;
  match err with
  | Some e => mret (Some e)
  | None =>
  fmt.Printf ("## Done" +:+ LF) [];;
  mret None
  end end.

Definition run (opts : runOps.t) : M (option error) :=
  r ← minio.New (runOps.endpoint opts) (runOps.id opts) (runOps.key opts) true;
  match r with
  | inr err => mret (Some err)
  | inl minioClient =>
  fmt.Printf ("## Downloading Archive: %s/%s" +:+ LF)
    [runOps.bucket opts; tarKey opts];;
  r ← download minioClient (runOps.bucket opts) (tarKey opts);
  match r with
  | inr _ =>
      mret (Some (fmt.Errorf "Can't download archive from %s/%s"
                    [runOps.bucket opts; tarKey opts]))
  | inl archive =>
  fmt.Printf ("## Done" +:+ LF +:+ LF) [];;
  fmt.Printf ("## Generating Checksum" +:+ LF) [];;
  r ← generateSha256 archive;
  match r with
  | inr err => mret (Some err)
  | inl localChecksum =>
  fmt.Printf ("## Done" +:+ LF +:+ LF) [];;
  r ← (if decide (runOps.sha opts = "") then run_remoteSha minioClient opts
       else mret (inl (runOps.sha opts)));
  match r with
  | inr err => mret (Some err)
  | inl sha =>
  fmt.Printf ("## Comparing checksums" +:+ LF) [];;
  if decide (sha ≠ localChecksum) then
    fmt.Printf ("## FAIL" +:+ LF +:+ LF) [];;
    mret (Some errChecksumMismatch)
  else
  fmt.Printf ("## PASS" +:+ LF +:+ LF) [];;
  run_save opts archive
  end end end end.

(** ** Vocabulary of the specification *)

(** A digest character: a lowercase hexadecimal digit. *)
Definition is_lower_hex (c : ascii) : bool :=
  let n := N_of_char c in
  ((48 <=? n) && (n <=? 57)) || ((97 <=? n) && (n <=? 102)).

Fixpoint string_forall (P : ascii -> bool) (s : string) : bool :=
  match s with
  | EmptyString => true
  | String c t => P c && string_forall P t
  end.

(** The first whitespace-delimited token of a text, in the words of the
    specification: skip the leading white space, then take the characters
    up to the next white space; there is none when nothing is left after
    skipping. *)
Fixpoint skip_space (cs : list (N * string)) : list (N * string) :=
  match cs with
  | [] => []
  | (r, b) :: cs' => if unicode.IsSpace r then skip_space cs' else cs
  end.

Fixpoint upto_space (cs : list (N * string)) : string :=
  match cs with
  | [] => ""
  | (r, b) :: cs' => if unicode.IsSpace r then "" else b +:+ upto_space cs'
  end.

Definition token_of (cs : list (N * string)) : option string :=
  match skip_space cs with
  | [] => None
  | cs' => Some (upto_space cs')
  end.

Definition first_token (text : string) : option string :=
  token_of (utf8.runes text).

(** The client [run] obtains from [minio.New]. *)
Definition client_of (opts : runOps.t) : Client :=
  mkClient (runOps.endpoint opts) (runOps.id opts) (runOps.key opts) true.

(** What fetching a key from the store comes to: the bytes of the object
    when it can be opened and read to its end, the error otherwise. *)
Definition fetch (env : Env) (c : Client) (bucket key : string)
    : list byte + error :=
  match env_GetObject env c bucket key with
  | inl (mkObject d None) => inl d
  | inl (mkObject _ (Some e)) => inr (externalError e)
  | inr e => inr (externalError e)
  end.

(** The computed digest of archive bytes. *)
Definition digest_of (d : list byte) : string :=
  hex.EncodeToString (sha256.Sum256 d).

(** The expected digest as the Checksum Resolver of the specification
    obtains it: the caller's value when set, else the first token of the
    checksum object. *)
Definition expected_digest (env : Env) (opts : runOps.t) : option string :=
  if decide (runOps.sha opts = "") then
    match fetch env (client_of opts) (runOps.bucket opts) (checksumKey opts) with
    | inl text => first_token (string_of_bytes text)
    | inr _ => None
    end
  else Some (runOps.sha opts).

(** Events that touch the local file system. *)
Definition is_fs_event (e : event) : bool :=
  match e with
  | EvCreate _ | EvWrite _ _ => true
  | _ => false
  end.

(** Requests to the store for a given key. *)
Definition is_get_of (key : string) (e : event) : bool :=
  match e with
  | EvGetObject _ k => bool_decide (k = key)
  | _ => false
  end.

Definition PASS_line : event := EvStdout ("## PASS" +:+ LF +:+ LF).
Definition FAIL_line : event := EvStdout ("## FAIL" +:+ LF +:+ LF).

(** The text a sequence of decoded runes stands for. *)
Fixpoint join (cs : list (N * string)) : string :=
  match cs with
  | [] => ""
  | (_, b) :: cs' => b +:+ join cs'
  end.

(** Digesting the bytes [p] held in a fresh buffer. *)
Definition digest_bytes (p : list byte) : M (string + error) :=
  b ← bytes.NewBuffer p;
  generateSha256 b.

(** The store is asked for the derived keys only, and the file created
    is named by the archive key. *)
Definition uses_derived_keys (opts : runOps.t) (e : event) : Prop :=
  match e with
  | EvGetObject b k =>
      b = runOps.bucket opts /\ (k = tarKey opts \/ k = checksumKey opts)
  | EvCreate name | EvWrite name _ => name = tarKey opts
  | EvStdout _ => True
  end.

(** ** The observable behaviour of [run] in closed form

    What [run] returns, the events it appends to the trace and the files
    it leaves, as a function of what the collaborators answer.  Lemma
    [run_observable] below proves that [run] behaves so in every world. *)

Definition remoteSha_effects (env : Env) (opts : runOps.t)
    : outcome (string + error) * list event :=
  let asked :=
    [ EvStdout (fmt.Sprintf ("## Downloading Checksum: %s/%s" +:+ LF)
                  [runOps.bucket opts; checksumKey opts]);
      EvGetObject (runOps.bucket opts) (checksumKey opts) ] in
  match fetch env (client_of opts) (runOps.bucket opts) (checksumKey opts) with
  | inr _ =>
      (Val (inr (fmt.Errorf "Can't download checksum from %s/%s"
                   [runOps.bucket opts; checksumKey opts])), asked)
  | inl text =>
      match strings.Fields (string_of_bytes text) with
      | [] => (Panic "runtime error: index out of range [0] with length 0", asked)
      | sha :: _ => (Val (inl sha), asked ++ [EvStdout ("## Done" +:+ LF +:+ LF)])
      end
  end.

Definition run_effects (env : Env) (opts : runOps.t)
    (fs : gmap string (list byte))
    : outcome (option error) * list event * gmap string (list byte) :=
  match env_New env (runOps.endpoint opts) (runOps.id opts) (runOps.key opts) true with
  | Some e => (Val (Some (externalError e)), [], fs)
  | None =>
  let ev1 :=
    [ EvStdout (fmt.Sprintf ("## Downloading Archive: %s/%s" +:+ LF)
                  [runOps.bucket opts; tarKey opts]);
      EvGetObject (runOps.bucket opts) (tarKey opts) ] in
  match fetch env (client_of opts) (runOps.bucket opts) (tarKey opts) with
  | inr _ =>
      (Val (Some (fmt.Errorf "Can't download archive from %s/%s"
                    [runOps.bucket opts; tarKey opts])), ev1, fs)
  | inl d =>
  let ev2 :=
    ev1 ++ [ EvStdout ("## Done" +:+ LF +:+ LF);
             EvStdout ("## Generating Checksum" +:+ LF);
             EvStdout ("## Done" +:+ LF +:+ LF) ] in
  let resolved :=
    if decide (runOps.sha opts = "") then remoteSha_effects env opts
    else (Val (inl (runOps.sha opts)), []) in
  let ev3 := ev2 ++ resolved.2 in
  match resolved.1 with
  | Panic msg => (Panic msg, ev3, fs)
  | Val (inr err) => (Val (Some err), ev3, fs)
  | Val (inl sha) =>
  let ev4 := ev3 ++ [EvStdout ("## Comparing checksums" +:+ LF)] in
  if decide (sha ≠ digest_of d) then
    (Val (Some errChecksumMismatch), ev4 ++ [FAIL_line], fs)
  else
  let ev5 :=
    ev4 ++ [ PASS_line;
             EvStdout (fmt.Sprintf ("## Saving Archive to %s" +:+ LF) [tarKey opts]);
             EvCreate (tarKey opts) ] in
  match env_Create env (tarKey opts) with
  | Some e => (Val (Some (externalError e)), ev5, fs)
  | None => (Val None, ev5 ++ [EvStdout ("## Done" +:+ LF)], <[tarKey opts := []]> fs)
  end end end end.

(** The events of a run up to and including the comparison line. *)
Definition events_to_compare (opts : runOps.t) : list event :=
  [ EvStdout (fmt.Sprintf ("## Downloading Archive: %s/%s" +:+ LF)
                [runOps.bucket opts; tarKey opts]);
    EvGetObject (runOps.bucket opts) (tarKey opts);
    EvStdout ("## Done" +:+ LF +:+ LF);
    EvStdout ("## Generating Checksum" +:+ LF);
    EvStdout ("## Done" +:+ LF +:+ LF) ] ++
  (if decide (runOps.sha opts = "") then
     [ EvStdout (fmt.Sprintf ("## Downloading Checksum: %s/%s" +:+ LF)
                   [runOps.bucket opts; checksumKey opts]);
       EvGetObject (runOps.bucket opts) (checksumKey opts);
       EvStdout ("## Done" +:+ LF +:+ LF) ]
   else []) ++
  [ EvStdout ("## Comparing checksums" +:+ LF) ].

Definition events_of_save (opts : runOps.t) : list event :=
  [ PASS_line;
    EvStdout (fmt.Sprintf ("## Saving Archive to %s" +:+ LF) [tarKey opts]);
    EvCreate (tarKey opts) ].

(** ** A fixture: the end-to-end scenario *)

Definition hello : list byte := bytes_of_string "hello".

Definition hello_sha : string :=
  "2cf24dba5fb0a30e26e83b2ac5b9e29e1b161e5c1fa7425e73043362938b9824".

Definition svc_opts (sha : string) : runOps.t :=
  runOps.mk "svc" "v1.0.0" "s3.amazonaws.com" "releases" "AKIA" "secret"
            "linux" "amd64" sha.

(** A store holding the archive under its key and [sum] under the
    checksum key; the file system accepts every call. *)
Definition fake_store (archive : list byte) (sum : string) : Env :=
  mkEnv (fun _ _ _ _ => None)
        (fun _ bucket key =>
           if decide (key = "svc_v1.0.0_linux_amd64.tar.gz") then
             inl (mkObject archive None)
           else if decide (key = "svc_v1.0.0_linux_amd64.sha256") then
             inl (mkObject (bytes_of_string sum) None)
           else inr "The specified key does not exist.")
        (fun _ => None)
        (fun _ p => (length p, None)).

Definition empty_world : world := mkWorld [] ∅ ∅ 0.

(** A working directory that already holds an older archive. *)
Definition world_with_old_archive : world :=
  mkWorld [] {[ "svc_v1.0.0_linux_amd64.tar.gz" := bytes_of_string "old release" ]} ∅ 0.

(** A checksum object in the format of the [sha256sum] utility that does
    not match the archive. *)
Definition stale_store : Env :=
  fake_store hello ("abc123  filename.tar.gz" +:+ LF).

Definition hello_sha_upper : string :=
  "2CF24DBA5FB0A30E26E83B2AC5B9E29E1B161E5C1FA7425E73043362938B9824".

(** The store of the scenario on a file system that lets files be
    created and refuses every write. *)
Definition write_refusing_store : Env :=
  mkEnv (fun _ _ _ _ => None)
        (env_GetObject (fake_store hello ""))
        (fun _ => None)
        (fun _ _ => (0%nat, Some "no space left on device")).

(** ** flag: the command-line flags of [main.go]

    Only string flags are modelled: [main.go] defines no other kind.  The
    methods of a [FlagSet] pass the set along; the package-level functions
    further down act on the process-wide [CommandLine]. *)

Definition TAB : string := String "009"%char EmptyString.

Module flag.

Record Flag := mkFlag {
  Name : string;
  Usage : string;
  Value : string;
  DefValue : string
}.

(** [formal] keeps the flags in the order they were defined; [args] are
    the arguments left to parse. *)
Record FlagSet := mkFlagSet { formal : list Flag; args : list string }.

(** What [parseOne] can report: [ErrHelp], or the error made by [failf]. *)
Inductive parse_error :=
| ErrHelp
| failf (msg : string).

Definition Lookup (f : FlagSet) (name : string) : option Flag :=
  find (fun fl => String.eqb (Name fl) name) (formal f).

(** [flag.Value.Set(value)] on the flag called [name]. *)
Definition Set_ (f : FlagSet) (name value : string) : FlagSet :=
  mkFlagSet
    (map (fun fl =>
            if String.eqb (Name fl) name
            then mkFlag (Name fl) (Usage fl) value (DefValue fl)
            else fl)
         (formal f))
    (args f).

(** [s] cut at the first occurrence of [c]: what stands before and after. *)
Fixpoint cut (c : ascii) (s : string) : option (string * string) :=
  match s with
  | EmptyString => None
  | String x t =>
      if Ascii.eqb x c then Some (EmptyString, t)
      else match cut c t with
           | Some (a, b) => Some (String x a, b)
           | None => None
           end
  end.

(** [name=value]: the equals sign cannot be the first character. *)
Definition cut_value (name : string) : string * option string :=
  match name with
  | EmptyString => (name, None)
  | String c t =>
      match cut "="%char t with
      | Some (a, v) => (String c a, Some v)
      | None => (name, None)
      end
  end.

Definition bad_name (name : string) : bool :=
  match name with
  | EmptyString => true
  | String c _ => Ascii.eqb c "-"%char || Ascii.eqb c "="%char
  end.

(** One step of parsing: whether a flag was seen, the error if any, and
    the flag set afterwards. *)
Definition parseOne (f : FlagSet) : bool * option parse_error * FlagSet :=
  match args f with
  | [] => (false, None, f)
  | s :: rest =>
      match s with
      | String "-"%char (String c1 t1) =>
          let numMinuses := if Ascii.eqb c1 "-"%char then 2%nat else 1%nat in
          if Ascii.eqb c1 "-"%char && (String.length s =? 2)%nat then
            (false, None, mkFlagSet (formal f) rest)
          else
          let name := str_drop numMinuses s in
          if bad_name name then
            (false, Some (failf (fmt.Sprintf "bad flag syntax: %s" [s])), f)
          else
          let f1 := mkFlagSet (formal f) rest in
          let '(name, value) := cut_value name in
          match Lookup f1 name with
          | None =>
              if String.eqb name "help" || String.eqb name "h" then
                (false, Some ErrHelp, f1)
              else
                (false,
                 Some (failf (fmt.Sprintf "flag provided but not defined: -%s" [name])),
                 f1)
          | Some _ =>
              match value with
              | Some v => (true, None, Set_ f1 name v)
              | None =>
                  match rest with
                  | v :: rest' =>
                      (true, None, Set_ (mkFlagSet (formal f) rest') name v)
                  | [] =>
                      (false,
                       Some (failf (fmt.Sprintf "flag needs an argument: -%s" [name])),
                       f1)
                  end
              end
          end
      | _ => (false, None, f)
      end
  end.

(** The loop of [FlagSet.Parse].  Every flag seen uses up an argument, so
    [n] calls beyond the first are enough when [n] arguments are left. *)
Fixpoint Parse_loop (n : nat) (f : FlagSet) : option parse_error * FlagSet :=
  let '(seen, err, f') := parseOne f in
  if seen then
    match n with
    | S n' => Parse_loop n' f'
    | O => (None, f')
    end
  else (err, f').

Definition Parse (f : FlagSet) (arguments : list string)
    : option parse_error * FlagSet :=
  Parse_loop (length arguments) (mkFlagSet (formal f) arguments).

(** [UnquoteUsage] of a string flag: a back-quoted word of the usage
    names the value, otherwise the name is the type. *)
Definition UnquoteUsage (fl : Flag) : string * string :=
  match cut "096"%char (Usage fl) with
  | Some (before, rest) =>
      match cut "096"%char rest with
      | Some (name, after) => (name, before +:+ name +:+ after)
      | None => ("string", Usage fl)
      end
  | None => ("string", Usage fl)
  end.

(** [strings.ReplaceAll(usage, "\n", "\n    \t")] *)
Fixpoint indent_lines (s : string) : string :=
  match s with
  | EmptyString => EmptyString
  | String c t =>
      if Ascii.eqb c "010"%char
      then String c ("    " +:+ TAB +:+ indent_lines t)
      else String c (indent_lines t)
  end.

(** What [PrintDefaults] writes for one flag; [quote] stands for the
    [%q] verb. *)
Definition defaults_entry (quote : string -> string) (fl : Flag) : string :=
  let '(name, usage) := UnquoteUsage fl in
  let b := "  -" +:+ Name fl in
  let b := if (0 <? String.length name)%nat then b +:+ " " +:+ name else b in
  let b := if (String.length b <=? 4)%nat then b +:+ TAB
           else b +:+ LF +:+ "    " +:+ TAB in
  let b := b +:+ indent_lines usage in
  let b := if String.eqb (DefValue fl) "" then b
           else b +:+ " (default " +:+ quote (DefValue fl) +:+ ")" in
  b +:+ LF.

(** [VisitAll] goes through the flags in the order of their names. *)
Fixpoint insert_by_name (fl : Flag) (l : list Flag) : list Flag :=
  match l with
  | [] => [fl]
  | x :: t =>
      if String.leb (Name fl) (Name x) then fl :: l
      else x :: insert_by_name fl t
  end.

Definition sortFlags (l : list Flag) : list Flag := foldr insert_by_name [] l.

Definition defaults (quote : string -> string) (f : FlagSet) : list string :=
  map (defaults_entry quote) (sortFlags (formal f)).

End flag.

(** ** The process: environment, standard error, exit status *)

(** What the process is started with: the collaborators, the environment
    variables, the arguments after the program name ([os.Args[1:]]) and
    the platform constants [runtime.GOOS] and [runtime.GOARCH].
    [strconv.Quote], which [flag.PrintDefaults] applies to defaults, is
    not modelled and is taken as given; so is the goroutine trace that
    the runtime prints when a panic is not recovered, which depends on
    the build. *)
Record Host := mkHost {
  host_env : Env;
  environ : gmap string string;
  argv : list string;
  GOOS : string;
  GOARCH : string;
  Quote : string -> string;
  Traceback : string
}.

(** The state of the process: the world [run] acts on, the writes to
    standard error, and the package-level [flag.CommandLine]. *)
Record process := mkProcess {
  proc_world : world;
  stderr : list string;
  CommandLine : flag.FlagSet
}.

(** How a computation of the process ends: with a value, by [os.Exit], or
    by a panic.  Nothing in [main.go] recovers from a panic, so a panic
    ends the process: the runtime writes its report to standard error and
    the process exits with status 2. *)
Inductive status (A : Type) :=
| Returned (a : A)
| Exited (code : nat)
| Panicked (msg : string).
Arguments Returned {A} a.
Arguments Exited {A} code.
Arguments Panicked {A} msg.

Definition Proc (A : Type) : Type := Host -> process -> status A * process.

#[global] Instance Proc_ret : MRet Proc := fun A a _ p => (Returned a, p).
#[global] Instance Proc_bind : MBind Proc := fun A B f m h p =>
  match m h p with
  | (Returned a, p') => f a h p'
  | (Exited code, p') => (Exited code, p')
  | (Panicked msg, p') => (Panicked msg, p')
  end.

(** What the runtime writes to standard error for a panic that is not
    recovered: the line [panic: msg], an empty line and the goroutine
    trace. *)
Definition panic_report (h : Host) (msg : string) : string :=
  "panic: " +:+ msg +:+ LF +:+ LF +:+ Traceback h.

Definition throw {A} (msg : string) : Proc A := fun h p =>
  (Panicked msg,
   mkProcess (proc_world p) (stderr p ++ [panic_report h msg]) (CommandLine p)).

(** A computation of [M] run inside the process; its panic is the panic
    of the process. *)
Definition lift {A} (m : M A) : Proc A := fun h p =>
  match m (host_env h) (proc_world p) with
  | (Val a, w) => (Returned a, mkProcess w (stderr p) (CommandLine p))
  | (Panic msg, w) =>
      (Panicked msg,
       mkProcess w (stderr p ++ [panic_report h msg]) (CommandLine p))
  end.

Definition host : Proc Host := fun h p => (Returned h, p).

Definition os_Exit {A} (code : nat) : Proc A := fun _ p => (Exited code, p).

Definition os_Getenv (key : string) : Proc string :=
  h ← host;
  mret (default "" (environ h !! key)).

(** [fmt.Fprintln(os.Stderr, s)] and [fmt.Fprint(os.Stderr, s)] *)
Definition Stderr_Write (s : string) : Proc unit := fun _ p =>
  (Returned tt, mkProcess (proc_world p) (stderr p ++ [s]) (CommandLine p)).

Definition fmt_Fprintln_Stderr (s : string) : Proc unit :=
  Stderr_Write (s +:+ LF).

Definition fmt_Println (s : string) : Proc unit :=
  lift (emit (EvStdout (s +:+ LF))).

(** [err.Error()] *)
Definition Error (err : error) : string :=
  match err with
  | errorString s => s
  | externalError s => s
  end.

(** *** The package-level functions of [flag] *)

Definition get_CommandLine : Proc flag.FlagSet := fun _ p =>
  (Returned (CommandLine p), p).

Definition set_CommandLine (f : flag.FlagSet) : Proc unit := fun _ p =>
  (Returned tt, mkProcess (proc_world p) (stderr p) f).

(** A [*string] returned by [flag.String]: it points into the flag. *)
Inductive StringPtr := ValueOf (name : string).

(** [flag.String]: defining a name twice prints a message and panics. *)
Definition flag_String (name value usage : string) : Proc StringPtr :=
  f ← get_CommandLine;
  match flag.Lookup f name with
  | Some _ =>
      fmt_Fprintln_Stderr (fmt.Sprintf "flag redefined: %s" [name]);;
      throw (fmt.Sprintf "flag redefined: %s" [name])
  | None =>
      set_CommandLine
        (flag.mkFlagSet (flag.formal f ++ [flag.mkFlag name usage value value])
                        (flag.args f));;
      mret (ValueOf name)
  end.

(** [*p] for a pointer returned by [flag.String]. *)
Definition deref (p : StringPtr) : Proc string :=
  let 'ValueOf name := p in
  f ← get_CommandLine;
  match flag.Lookup f name with
  | Some fl => mret (flag.Value fl)
  | None => throw "invalid memory address or nil pointer dereference"
  end.

Definition flag_PrintDefaults : Proc unit :=
  h ← host;
  f ← get_CommandLine;
  foldr (fun entry rest => Stderr_Write entry;; rest) (mret tt)
        (flag.defaults (Quote h) f).

Definition flag_Args : Proc (list string) :=
  f ← get_CommandLine;
  mret (flag.args f).

(** [flag.Parse()]: [CommandLine] handles errors by exiting, with status
    0 when help was asked for and 2 otherwise; [failf] has printed the
    error and called [Usage] by then. *)
Definition flag_Parse (Usage : Proc unit) : Proc unit :=
  h ← host;
  f ← get_CommandLine;
  let '(err, f') := flag.Parse f (argv h) in
  set_CommandLine f';;
  match err with
  | None => mret tt
  | Some flag.ErrHelp => Usage;; os_Exit 0
  | Some (flag.failf msg) => fmt_Fprintln_Stderr msg;; Usage;; os_Exit 2
  end.

(** ** main.go: the command line *)

Definition usageTemplate : string :=
  "NAME:" +:+ LF +:+
  "  service-loader" +:+ LF +:+
  LF +:+
  "  Loads binaries from a amazon s3 bucket or minio and validates it against" +:+ LF +:+
  "  the sha256 checksum included along side it." +:+ LF +:+
  LF +:+
  "USAGE:" +:+ LF +:+
  "  service-loader [options] <APP> <TAG>" +:+ LF +:+
  LF +:+
  "OPTIONS:" +:+ LF +:+
  "  -help" +:+ LF +:+
  "    " +:+ TAB +:+ "show help".

Definition usage : Proc unit :=
  fmt_Fprintln_Stderr usageTemplate;;
  flag_PrintDefaults.

Definition defaultOS (key fallback : string) : Proc string :=
  env ← os_Getenv key;
  if decide (env ≠ "") then mret env else mret fallback.

Definition exit {A} (err : error) (printUsage : bool) : Proc A :=
  fmt_Println (Error err);;
  (if printUsage then usage else mret tt);;
  os_Exit 1.

(** [args[i]] on a slice of strings. *)
Definition index (a : list string) (i : nat) : Proc string :=
  match a !! i with
  | Some x => mret x
  | None => throw "runtime error: index out of range"
  end.

Definition main : Proc unit :=
  bucket ← flag_String "bucket" "" "S3/minio bucket where the releases exist";
  d ← defaultOS "AWS_ACCESS_KEY_ID" "";
  id ← flag_String "id" d
    "AWS_ACCESS_KEY_ID to authenticate to the aws/minio service, defaults to env variable";
  d ← defaultOS "AWS_SECRET_ACCESS_KEY" "";
  key ← flag_String "key" d
    "AWS_SECRET_ACCESS_KEY to authenticate to the aws/minio service, defaults to env variable";
  endpoint ← flag_String "endpoint" "s3.amazonaws.com"
    "endpoint for the aws/minio service";
  sha ← flag_String "sha" ""
    "the sha256 to validate against, defaults to loading from aws/minio";
  flag_Parse usage;;
  v ← deref bucket;
  (if decide (v = "") then exit (errors.New "-bucket is required") true
   else mret tt);;
  v ← deref id;
  (if decide (v = "") then exit (errors.New "-id is required") true
   else mret tt);;
  v ← deref key;
  (if decide (v = "") then exit (errors.New "-key is required") true
   else mret tt);;
  args ← flag_Args;
  (if (length args <? 1)%nat then
     exit (errors.New "APP and TAG are required") true
   else if (length args <? 2)%nat then
     exit (errors.New "TAG is required") true
   else mret tt);;
  app ← index args 0;
  tag ← index args 1;
  v_bucket ← deref bucket;
  v_id ← deref id;
  v_key ← deref key;
  h ← host;
  v_os ← defaultOS "GOOS" (GOOS h);
  v_arch ← defaultOS "GOARCH" (GOARCH h);
  v_endpoint ← deref endpoint;
  v_sha ← deref sha;
  err ← lift (run (runOps.mk app tag v_endpoint v_bucket v_id v_key v_os v_arch v_sha));
  match err with
  | Some err => exit err false
  | None => mret tt
  end.

(** A process at its start, in the world [w]. *)
Definition start (w : world) : process :=
  mkProcess w [] (flag.mkFlagSet [] []).

Definition quote_plain (s : string) : string :=
  String "034"%char (s +:+ String "034"%char EmptyString).

(** *** What [main] comes to, in closed form *)

(** [defaultOS] as a function of the environment. *)
Definition getenv_or (h : Host) (key fallback : string) : string :=
  if decide (default "" (environ h !! key) ≠ "")
  then default "" (environ h !! key) else fallback.

(** [CommandLine] once [main] has defined its flags. *)
Definition main_flags (h : Host) : flag.FlagSet :=
  flag.mkFlagSet
    [ flag.mkFlag "bucket" "S3/minio bucket where the releases exist" "" "";
      flag.mkFlag "id"
        "AWS_ACCESS_KEY_ID to authenticate to the aws/minio service, defaults to env variable"
        (getenv_or h "AWS_ACCESS_KEY_ID" "") (getenv_or h "AWS_ACCESS_KEY_ID" "");
      flag.mkFlag "key"
        "AWS_SECRET_ACCESS_KEY to authenticate to the aws/minio service, defaults to env variable"
        (getenv_or h "AWS_SECRET_ACCESS_KEY" "") (getenv_or h "AWS_SECRET_ACCESS_KEY" "");
      flag.mkFlag "endpoint" "endpoint for the aws/minio service"
        "s3.amazonaws.com" "s3.amazonaws.com";
      flag.mkFlag "sha"
        "the sha256 to validate against, defaults to loading from aws/minio" "" "" ]
    [].

(** The value of a flag, empty when there is no such flag. *)
Definition value_of (f : flag.FlagSet) (name : string) : string :=
  match flag.Lookup f name with
  | Some fl => flag.Value fl
  | None => ""
  end.

(** The options [main] hands to [run] for the parsed flags [f] and the
    two positional arguments. *)
Definition main_opts (h : Host) (f : flag.FlagSet) (app tag : string) : runOps.t :=
  runOps.mk app tag (value_of f "endpoint") (value_of f "bucket")
            (value_of f "id") (value_of f "key")
            (getenv_or h "GOOS" (GOOS h)) (getenv_or h "GOARCH" (GOARCH h))
            (value_of f "sha").

(** Everything [usage] writes to standard error. *)
Definition usage_text (h : Host) (f : flag.FlagSet) : list string :=
  (usageTemplate +:+ LF) :: flag.defaults (Quote h) f.

(** The world after one more line on standard output. *)
Definition println (s : string) (w : world) : world :=
  mkWorld (trace w ++ [EvStdout (s +:+ LF)]) (files w) (heap w) (next w).

Definition main_outcome (h : Host) (w : world) : status unit * process :=
  let '(err, f) := flag.Parse (main_flags h) (argv h) in
  let refuse (msg : string) : status unit * process :=
    (Exited 1, mkProcess (println msg w) (usage_text h f) f) in
  match err with
  | Some flag.ErrHelp => (Exited 0, mkProcess w (usage_text h f) f)
  | Some (flag.failf msg) =>
      (Exited 2, mkProcess w ((msg +:+ LF) :: usage_text h f) f)
  | None =>
      if decide (value_of f "bucket" = "") then refuse "-bucket is required"
      else if decide (value_of f "id" = "") then refuse "-id is required"
      else if decide (value_of f "key" = "") then refuse "-key is required"
      else
        match flag.args f with
        | [] => refuse "APP and TAG are required"
        | [_] => refuse "TAG is required"
        | app :: tag :: _ =>
            match run (main_opts h f app tag) (host_env h) w with
            | (Val None, w') => (Returned tt, mkProcess w' [] f)
            | (Val (Some err), w') =>
                (Exited 1, mkProcess (println (Error err) w') [] f)
            | (Panic msg, w') =>
                (Panicked msg, mkProcess w' [panic_report h msg] f)
            end
        end
  end.

(** A host for examples: the store of the scenario, given variables and
    arguments. *)
Definition test_host (vars : list (string * string)) (args : list string) : Host :=
  mkHost (fake_store hello "") (list_to_map vars) args "linux" "amd64" quote_plain
         "goroutine 1 [running]:".

(** *** Vocabulary for the command line *)

(** What parsing never changes in a flag: its name, usage and default. *)
Definition signature (fl : flag.Flag) : string * string * string :=
  (flag.Name fl, flag.Usage fl, flag.DefValue fl).

Definition signatures (f : flag.FlagSet) : list (string * string * string) :=
  map signature (flag.formal f).

(** An argument that is not a flag: shorter than two characters, or not
    starting with a minus sign. *)
Definition not_a_flag (s : string) : bool :=
  match s with
  | String "-"%char (String _ _) => false
  | _ => true
  end.

(** No argument, or a first argument that is not a flag. *)
Definition no_leading_flag (arguments : list string) : bool :=
  match arguments with
  | [] => true
  | a :: _ => not_a_flag a
  end.

(** A name that [parseOne] takes as it stands: not empty, not starting
    with a minus or equals sign, and with no equals sign inside. *)
Definition plain_name (name : string) : bool :=
  negb (flag.bad_name name) &&
  match flag.cut_value name with
  | (_, None) => true
  | (_, Some _) => false
  end.

(** What can be seen of a process when it ends: how it ended, the world
    it leaves and what it wrote to standard error. *)
Definition seen (r : status unit * process) : status unit * world * list string :=
  (r.1, proc_world r.2, stderr r.2).

(** How [main] ends once [run] has ended with [r]: it returns when [run]
    returned [nil], and otherwise prints the error on standard output and
    exits with status 1; a panic of [run] ends the process, with the
    report of the runtime on standard error. *)
Definition reported (h : Host) (r : outcome (option error) * world)
    : status unit * world * list string :=
  match r with
  | (Val None, w') => (Returned tt, w', [])
  | (Val (Some err), w') => (Exited 1, println (Error err) w', [])
  | (Panic msg, w') => (Panicked msg, w', [panic_report h msg])
  end.

(** The host without the variables that are set to the empty string. *)
Definition without_empty (h : Host) : Host :=
  mkHost (host_env h) (filter (fun kv => kv.2 <> "") (environ h))
         (argv h) (GOOS h) (GOARCH h) (Quote h) (Traceback h).

(** * Proofs *)

(** ** Strings *)

Lemma str_app_cons (c : ascii) (s t : string) :
  String c s +:+ t = String c (s +:+ t).
Proof. reflexivity. Qed.

Lemma str_app_nil_l (t : string) : "" +:+ t = t.
Proof. reflexivity. Qed.

Ltac str_simpl := simpl; rewrite ?str_app_cons, ?str_app_nil_l; simpl.

Lemma str_app_nil_r (s : string) : s +:+ "" = s.
Proof. induction s as [|c s IH]; str_simpl; [done | by rewrite IH]. Qed.

Lemma str_app_assoc (a b c : string) : (a +:+ b) +:+ c = a +:+ b +:+ c.
Proof. induction a as [|x a IH]; str_simpl; [done | by rewrite IH]. Qed.

Lemma str_length_app (a b : string) :
  String.length (a +:+ b) = (String.length a + String.length b)%nat.
Proof. induction a as [|x a IH]; str_simpl; [done | by rewrite IH]. Qed.

Lemma str_app_inv_head (a b c : string) : a +:+ b = a +:+ c -> b = c.
Proof. induction a as [|x a IH]; str_simpl; [done | intros [= H]; auto]. Qed.

Lemma str_take_drop (n : nat) (s : string) : str_take n s +:+ str_drop n s = s.
Proof.
  revert s; induction n as [|n IH]; intros [|c s]; str_simpl; try done.
  by rewrite IH.
Qed.

Lemma str_length_drop (n : nat) (s : string) :
  String.length (str_drop n s) = (String.length s - n)%nat.
Proof. revert s; induction n as [|n IH]; intros [|c s]; simpl; auto. Qed.

Lemma str_drop_app (pre x : string) :
  str_drop (String.length pre) (pre +:+ x) = x.
Proof. induction pre as [|c pre IH]; str_simpl; auto. Qed.

Lemma str_take_app (b x : string) :
  str_take (String.length b) (b +:+ x) = b.
Proof.
  induction b as [|c b IH]; str_simpl; [by destruct x | by rewrite IH].
Qed.

Lemma str_drop_app_le (n : nat) (pre x : string) :
  (n <= String.length pre)%nat ->
  str_drop n (pre +:+ x) = str_drop n pre +:+ x.
Proof.
  revert pre; induction n as [|n IH]; intros [|c pre] H; str_simpl;
    simpl in H; try done.
  - lia.
  - apply IH; lia.
Qed.

(** [s[st:i]] for a field that started inside the prefix [pre]. *)
Lemma slice_prefix (pre x : string) (st : nat) :
  (st <= String.length pre)%nat ->
  slice (pre +:+ x) st (String.length pre) = str_drop st pre.
Proof.
  intros H. unfold slice. rewrite str_drop_app_le by done.
  rewrite <- (str_length_drop st pre). apply str_take_app.
Qed.

(** ** unicode/utf8: decoding covers the whole string *)

Lemma DecodeRuneInString_width (c : ascii) (t : string) :
  (1 <= (utf8.DecodeRuneInString (String c t)).2)%nat.
Proof.
  unfold utf8.DecodeRuneInString.
  repeat (match goal with
          | |- context [match ?x with _ => _ end] => destruct x
          end; simpl; try lia).
Qed.

Lemma decode_cons (n : nat) (c : ascii) (t : string) :
  utf8.decode (S n) (String c t) =
  (let s := String c t in
   ((utf8.DecodeRuneInString s).1, str_take (utf8.DecodeRuneInString s).2 s)
   :: utf8.decode n (str_drop (utf8.DecodeRuneInString s).2 s)).
Proof.
  cbn [utf8.decode]. by destruct (utf8.DecodeRuneInString (String c t)).
Qed.

Lemma decode_join (n : nat) (s : string) :
  (String.length s <= n)%nat -> join (utf8.decode n s) = s.
Proof.
  revert s; induction n as [|n IH]; intros [|c t] H; try done.
  - simpl in H; lia.
  - rewrite decode_cons. cbv zeta.
    pose proof (DecodeRuneInString_width c t) as Hw.
    destruct (utf8.DecodeRuneInString (String c t)) as [r sz].
    cbn [fst snd join] in *.
    rewrite IH; [by rewrite str_take_drop|].
    rewrite str_length_drop. simpl in H |- *. lia.
Qed.

Lemma runes_join (s : string) : join (utf8.runes s) = s.
Proof. by apply decode_join. Qed.

(** ** strings.Fields against the first token of the specification *)

Lemma FieldsFunc_loop_in_field (cs : list (N * string)) (pre : string) (st : nat) :
  (st <= String.length pre)%nat ->
  head (strings.FieldsFunc_loop (pre +:+ join cs) unicode.IsSpace
          (utf8.offsets (String.length pre) cs) (Some st))
  = Some (str_drop st pre +:+ upto_space cs).
Proof.
  revert pre; induction cs as [|[r b] cs IH]; intros pre Hst.
  - cbn [join utf8.offsets strings.FieldsFunc_loop upto_space head].
    rewrite !str_app_nil_r. f_equal.
    pose proof (slice_prefix pre "" st Hst) as H.
    by rewrite str_app_nil_r in H.
  - cbn [join utf8.offsets strings.FieldsFunc_loop upto_space].
    destruct (unicode.IsSpace r).
    + cbn [head]. by rewrite slice_prefix, str_app_nil_r.
    + rewrite <- str_app_assoc, <- str_length_app.
      rewrite IH by (rewrite str_length_app; lia).
      by rewrite str_drop_app_le, str_app_assoc.
Qed.

Lemma FieldsFunc_loop_seeking (cs : list (N * string)) (pre : string) :
  head (strings.FieldsFunc_loop (pre +:+ join cs) unicode.IsSpace
          (utf8.offsets (String.length pre) cs) None)
  = token_of cs.
Proof.
  revert pre; induction cs as [|[r b] cs IH]; intros pre; [done|].
  unfold token_of.
  cbn [join utf8.offsets strings.FieldsFunc_loop skip_space].
  destruct (unicode.IsSpace r) eqn:Hr.
  - rewrite <- str_app_assoc, <- str_length_app. apply IH.
  - rewrite <- str_app_assoc, <- str_length_app.
    rewrite FieldsFunc_loop_in_field by (rewrite str_length_app; lia).
    rewrite str_drop_app. cbn [upto_space]. by rewrite Hr.
Qed.

Lemma Fields_head (s : string) : head (strings.Fields s) = first_token s.
Proof.
  unfold strings.Fields, strings.FieldsFunc, utf8.range, first_token.
  pose proof (FieldsFunc_loop_seeking (utf8.runes s) "") as H.
  by rewrite str_app_nil_l, runes_join in H.
Qed.

(** A token is a non-empty piece of the text. *)
Lemma upto_space_nonempty (cs : list (N * string)) :
  Forall (fun c => c.2 <> "") cs -> skip_space cs <> [] ->
  upto_space (skip_space cs) <> "".
Proof.
  induction 1 as [|[r b] cs Hb _ IH]; [done|].
  cbn [skip_space]. destruct (unicode.IsSpace r) eqn:Hr; [done|].
  intros _. cbn [upto_space]. rewrite Hr.
  destruct b; [done|]. by rewrite str_app_cons.
Qed.

Lemma decode_chunks_nonempty (n : nat) (s : string) :
  Forall (fun c => c.2 <> "") (utf8.decode n s).
Proof.
  revert s; induction n as [|n IH]; intros [|c t]; try by constructor.
  rewrite decode_cons. cbv zeta. constructor; [|apply IH].
  pose proof (DecodeRuneInString_width c t) as Hw.
  destruct (utf8.DecodeRuneInString (String c t)) as [r [|sz]]; simpl in *;
    [lia | done].
Qed.

Lemma token_of_piece (cs : list (N * string)) (t : string) :
  token_of cs = Some t ->
  exists pre post, join cs = pre +:+ t +:+ post.
Proof.
  unfold token_of. induction cs as [|[r b] cs IH]; [done|].
  cbn [skip_space join]. destruct (unicode.IsSpace r) eqn:Hr.
  - intros H. destruct (IH H) as (pre & post & ->).
    exists (b +:+ pre), post. by rewrite str_app_assoc.
  - intros [= <-]. clear IH. cbn [upto_space]. rewrite Hr.
    assert (exists post, join cs = upto_space cs +:+ post) as [post ->].
    { clear. induction cs as [|[r b] cs [post IH]]; [by exists ""|].
      cbn [join upto_space]. destruct (unicode.IsSpace r).
      - by eexists.
      - exists post. by rewrite IH, str_app_assoc at 1. }
    exists "", post. by rewrite str_app_nil_l, str_app_assoc.
Qed.

Lemma token_of_Some (cs : list (N * string)) (t : string) :
  token_of cs = Some t -> skip_space cs <> [] /\ t = upto_space (skip_space cs).
Proof.
  unfold token_of. destruct (skip_space cs); [done|]. by intros [= <-].
Qed.

Lemma first_token_piece (s t : string) :
  first_token s = Some t ->
  t <> "" /\ exists pre post, s = pre +:+ t +:+ post.
Proof.
  unfold first_token. intros H. split.
  - apply token_of_Some in H as [Hne ->].
    apply upto_space_nonempty; [apply decode_chunks_nonempty | done].
  - destruct (token_of_piece _ _ H) as (pre & post & E).
    exists pre, post. by rewrite <- E, runes_join.
Qed.

(** ** encoding/hex and crypto/sha256: the shape of a digest *)

Lemma EncodeToString_length (l : list byte) :
  String.length (hex.EncodeToString l) = (2 * length l)%nat.
Proof. induction l as [|v l IH]; simpl; [done | rewrite IH; lia]. Qed.

Lemma digit_lower_hex (v : byte) :
  is_lower_hex (hex.digit (N.shiftr (Byte.to_N v) 4)) = true /\
  is_lower_hex (hex.digit (N.land (Byte.to_N v) 0x0f)) = true.
Proof. destruct v; vm_compute; done. Qed.

Lemma EncodeToString_lower_hex (l : list byte) :
  string_forall is_lower_hex (hex.EncodeToString l) = true.
Proof.
  induction l as [|v l IH]; [done|].
  destruct (digit_lower_hex v) as [Hhi Hlo].
  cbn [hex.EncodeToString string_forall]. by rewrite Hhi, Hlo, IH.
Qed.

Lemma Sum256_length (p : list byte) : length (sha256.Sum256 p) = 32%nat.
Proof. unfold sha256.Sum256, sha256.putUint32. by rewrite !length_app. Qed.

Lemma digest_of_length (d : list byte) : String.length (digest_of d) = 64%nat.
Proof.
  unfold digest_of. by rewrite EncodeToString_length, Sum256_length.
Qed.

Lemma digest_of_lower_hex (d : list byte) :
  string_forall is_lower_hex (digest_of d) = true.
Proof. apply EncodeToString_lower_hex. Qed.

(** ** Stepping through the monad *)

Lemma bind_val {A B} (m : M A) (f : A -> M B) env w a w' :
  m env w = (Val a, w') -> (m ≫= f) env w = f a env w'.
Proof. intros H. unfold mbind, M_bind. by rewrite H. Qed.

Lemma bind_panic {A B} (m : M A) (f : A -> M B) env w msg w' :
  m env w = (Panic msg, w') -> (m ≫= f) env w = (Panic msg, w').
Proof. intros H. unfold mbind, M_bind. by rewrite H. Qed.

Create HintDb effects.

#[local] Hint Unfold
  download generateSha256 index0
  minio.New minio.GetObject os.Create fmt.Printf io.Copy io.copy
  bytes.Buffer_Reader minio.Object_Reader bytes.WriteTo bytes.NewBuffer
  bytes.Len bytes.String bytes.Reset bytes.deref bytes.assign
  io.Write bytes.Buffer_Writer sha256.Hash_Writer os.File_Writer
  bytes.Write sha256.Write os.Write sha256.New sha256.Sum sha256.written
  mbind M_bind mret M_ret ask emit alloc load store get_files put_files panic
  : effects.

Ltac mred :=
  repeat (progress (autounfold with effects;
                    cbn [fst snd trace files heap next buf off obj_data obj_err
                         fmap option_fmap option_map app negb]) ||
          rewrite lookup_insert_eq || (rewrite lookup_insert_ne by lia) ||
          rewrite Nat.ltb_irrefl || rewrite Nat.eqb_refl).

Lemma download_fetch (c : Client) (b k : string) (env : Env) (w : world) :
  exists w',
    trace w' = trace w ++ [EvGetObject b k] /\ files w' = files w /\
    (forall l, (l < next w)%nat -> heap w' !! l = heap w !! l) /\
    (next w <= next w')%nat /\
    match fetch env c b k with
    | inl d =>
        download c b k env w = (Val (inl (BufferAt (next w))), w') /\
        heap w' !! next w = Some (OBuffer (mkBuffer d 0)) /\
        next w' = S (next w)
    | inr e => download c b k env w = (Val (inr e), w')
    end.
Proof.
  unfold fetch. mred.
  destruct (env_GetObject env c b k) as [[d [e|]]|e]; mred.
  - eexists (mkWorld _ _ _ _). split_and!; [| | | | reflexivity]; cbn; try done.
    + intros l Hl. by rewrite !lookup_insert_ne by lia.
    + lia.
  - eexists (mkWorld _ _ _ _). split_and!; [| | | | reflexivity | |]; cbn; try done.
    + intros l Hl. by rewrite !lookup_insert_ne by lia.
    + lia.
    + by rewrite lookup_insert_eq.
  - eexists (mkWorld _ _ _ _). split_and!; [| | | | reflexivity]; cbn; done.
Qed.

Lemma generateSha256_buffer (env : Env) (w : world) (l : nat) (b : Buffer) :
  heap w !! l = Some (OBuffer b) -> (l < next w)%nat ->
  exists w',
    generateSha256 (BufferAt l) env w
      = (Val (inl (digest_of (drop (off b) (buf b)))), w') /\
    trace w' = trace w /\ files w' = files w /\
    heap w' !! l = Some (OBuffer (mkBuffer [] 0)) /\
    next w' = S (next w).
Proof.
  intros Hb Hl. mred. rewrite Hb. mred.
  destruct (0 <? length (buf b) - off b)%nat eqn:Hn.
  - mred. rewrite Hb. mred. rewrite !length_drop. mred. rewrite Hb. mred.
    unfold digest_of.
    eexists (mkWorld _ _ _ _). split_and!; [reflexivity | ..]; cbn; try done.
    by rewrite lookup_insert_eq.
  - mred.
    assert (drop (off b) (buf b) = []) as ->.
    { apply Nat.ltb_ge in Hn. apply length_zero_iff_nil.
      rewrite length_drop. lia. }
    eexists (mkWorld _ _ _ _). split_and!; [reflexivity | ..]; cbn; try done.
    by rewrite lookup_insert_eq.
Qed.

(** Copying a drained buffer writes nothing. *)
Lemma Copy_drained (env : Env) (w : world) (l : nat) (name : string) :
  heap w !! l = Some (OBuffer (mkBuffer [] 0)) ->
  exists w',
    io.Copy (FileOf name) (BufferAt l) env w = (Val (0%nat, None), w') /\
    trace w' = trace w /\ files w' = files w.
Proof.
  intros Hb. mred. rewrite Hb. mred.
  eexists (mkWorld _ _ _ _). by split_and!.
Qed.

Lemma Printf_step (format : string) (a : list string) (env : Env) (w : world) :
  fmt.Printf format a env w
  = (Val tt, mkWorld (trace w ++ [EvStdout (fmt.Sprintf format a)])
                     (files w) (heap w) (next w)).
Proof. reflexivity. Qed.

Lemma run_remoteSha_effects (opts : runOps.t) (env : Env) (w : world) :
  exists w',
    run_remoteSha (client_of opts) opts env w = ((remoteSha_effects env opts).1, w') /\
    trace w' = trace w ++ (remoteSha_effects env opts).2 /\
    files w' = files w /\
    (forall l, (l < next w)%nat -> heap w' !! l = heap w !! l).
Proof.
  unfold run_remoteSha, remoteSha_effects.
  rewrite (bind_val _ _ _ _ _ _ (Printf_step _ _ _ _)).
  match goal with |- context [(download ?c ?b ?k ≫= _) env ?w1] =>
    destruct (download_fetch c b k env w1) as (w2 & Ht & Hf & Hh & Hn & Hd) end.
  cbn [trace files heap next] in *.
  destruct (fetch env (client_of opts) (runOps.bucket opts) (checksumKey opts))
    as [text|e].
  - destruct Hd as (Hd & Hb & Hn').
    rewrite (bind_val _ _ _ _ _ _ Hd).
    assert (bytes.String (BufferAt (next w)) env w2
            = (Val (string_of_bytes text), w2)) as Hs.
    { mred. rewrite Hb. by mred. }
    rewrite (bind_val _ _ _ _ _ _ Hs).
    destruct (strings.Fields (string_of_bytes text)) as [|sha rest].
    + exists w2. split_and!; try done. by rewrite Ht, <- app_assoc.
    + mred. eexists (mkWorld _ _ _ _). split_and!; [reflexivity | ..]; cbn; try done.
      * by rewrite Ht, <- !app_assoc.
  - rewrite (bind_val _ _ _ _ _ _ Hd).
    exists w2. split_and!; try done. by rewrite Ht, <- app_assoc.
Qed.

Lemma New_step (opts : runOps.t) (env : Env) (w : world) :
  minio.New (runOps.endpoint opts) (runOps.id opts) (runOps.key opts) true env w
  = (Val match env_New env (runOps.endpoint opts) (runOps.id opts)
                 (runOps.key opts) true with
         | Some e => inr (externalError e)
         | None => inl (client_of opts)
         end, w).
Proof. mred. by destruct (env_New _ _ _ _ _). Qed.

Lemma Create_step (name : string) (env : Env) (w : world) :
  os.Create name env w
  = match env_Create env name with
    | Some e =>
        (Val (inr (externalError e)),
         mkWorld (trace w ++ [EvCreate name]) (files w) (heap w) (next w))
    | None =>
        (Val (inl (FileOf name)),
         mkWorld (trace w ++ [EvCreate name]) (<[name := []]> (files w))
                 (heap w) (next w))
    end.
Proof. mred. by destruct (env_Create _ _). Qed.

Ltac step_with H := rewrite (bind_val _ _ _ _ _ _ H); cbn beta iota.
Ltac step_printf := rewrite (bind_val _ _ _ _ _ _ (Printf_step _ _ _ _)); cbn beta iota.

(** [run] behaves as [run_effects] says, in every world. *)
Lemma run_observable (opts : runOps.t) (env : Env) (w : world) :
  exists w',
    run opts env w = ((run_effects env opts (files w)).1.1, w') /\
    trace w' = trace w ++ (run_effects env opts (files w)).1.2 /\
    files w' = (run_effects env opts (files w)).2.
Proof.
  unfold run, run_effects.
  step_with (New_step opts env w).
  destruct (env_New env _ _ _ _) as [e|].
  { exists w. by rewrite app_nil_r. }
  step_printf.
  match goal with |- context [(download ?c ?b ?k ≫= _) env ?w1] =>
    destruct (download_fetch c b k env w1) as (w2 & Ht2 & Hf2 & _ & _ & Hd) end.
  cbn [trace files heap next] in *.
  destruct (fetch env (client_of opts) (runOps.bucket opts) (tarKey opts)) as [d|e].
  2:{ step_with Hd. exists w2. split_and!; try done. by rewrite Ht2, <- app_assoc. }
  destruct Hd as (Hd & Hb & Hn2). step_with Hd.
  do 2 step_printf.
  match goal with |- context [(generateSha256 _ ≫= _) env ?w3] =>
    destruct (generateSha256_buffer env w3 (next w) (mkBuffer d 0))
      as (w4 & Hg & Ht4 & Hf4 & Hb4 & Hn4); [done | cbn; lia |] end.
  cbn [trace files heap next buf off] in *. change (drop 0 d) with d in Hg.
  step_with Hg. step_printf.
  set (w5 := mkWorld _ _ _ _).
  assert (exists w6,
    (if decide (runOps.sha opts = "") then run_remoteSha (client_of opts) opts
     else mret (inl (runOps.sha opts))) env w5
    = ((if decide (runOps.sha opts = "") then remoteSha_effects env opts
        else (Val (inl (runOps.sha opts)), [])).1, w6) /\
    trace w6 = trace w5 ++
      (if decide (runOps.sha opts = "") then remoteSha_effects env opts
       else (Val (inl (runOps.sha opts)), [])).2 /\
    files w6 = files w5 /\
    heap w6 !! next w = Some (OBuffer (mkBuffer [] 0)))
    as (w6 & Hr & Ht6 & Hf6 & Hb6).
  { destruct (decide (runOps.sha opts = "")).
    - destruct (run_remoteSha_effects opts env w5) as (w6 & ? & ? & ? & Hfr).
      exists w6. split_and!; try done.
      rewrite Hfr; subst w5; cbn; [done | lia].
    - exists w5. split_and!; try done. by rewrite app_nil_r. }
  subst w5. cbn [trace files heap next] in *.
  destruct (if decide (runOps.sha opts = "") then remoteSha_effects env opts
            else (Val (inl (runOps.sha opts)), [])) as [[[sha|err]|msg] evs];
    cbn [fst snd] in *.
  3:{ rewrite (bind_panic _ _ _ _ _ _ Hr). exists w6. split_and!; try done.
      - by rewrite Ht6, Ht4, Ht2, <- !app_assoc.
      - by rewrite Hf6, Hf4, Hf2. }
  2:{ step_with Hr. exists w6. split_and!; try done.
      - by rewrite Ht6, Ht4, Ht2, <- !app_assoc.
      - by rewrite Hf6, Hf4, Hf2. }
  step_with Hr. step_printf.
  destruct (decide (sha ≠ digest_of d)) as [Hne|Heq].
  { step_printf. eexists (mkWorld _ _ _ _). split_and!; [reflexivity | ..]; cbn.
    - by rewrite Ht6, Ht4, Ht2, <- !app_assoc.
    - by rewrite Hf6, Hf4, Hf2. }
  step_printf. unfold run_save. step_printf.
  match goal with |- context [(os.Create ?n ≫= _) env ?w7] =>
    pose proof (Create_step n env w7) as HC end.
  cbn [trace files heap next] in HC.
  destruct (env_Create env (tarKey opts)) as [e|]; step_with HC.
  { eexists (mkWorld _ _ _ _). split_and!; [reflexivity | ..]; cbn.
    - by rewrite Ht6, Ht4, Ht2, <- !app_assoc.
    - by rewrite Hf6, Hf4, Hf2. }
  match goal with |- context [(io.Copy _ _ ≫= _) env ?w7] =>
    destruct (Copy_drained env w7 (next w) (tarKey opts)) as (w8 & Hc & Ht8 & Hf8);
      [done |] end.
  cbn [trace files heap next] in *.
  step_with Hc. step_printf.
  eexists (mkWorld _ _ _ _). split_and!; [reflexivity | ..]; cbn.
  - by rewrite Ht8, Ht6, Ht4, Ht2, <- !app_assoc.
  - by rewrite Hf8, Hf6, Hf4, Hf2.
Qed.

(** ** The object keys *)

Lemma fileName_eq (opts : runOps.t) :
  fileName opts =
  runOps.app opts +:+ "_" +:+ runOps.tag opts +:+ "_" +:+
  runOps.os opts +:+ "_" +:+ runOps.arch opts.
Proof.
  unfold fileName. cbn [fmt.Sprintf]. by rewrite str_app_nil_r.
Qed.

Lemma keys_differ (opts : runOps.t) : tarKey opts <> checksumKey opts.
Proof.
  unfold tarKey, checksumKey. intros H.
  by apply str_app_inv_head in H.
Qed.

(** ** From the closed form to the stages of a run *)

Lemma run_effects_compared env opts fs d E :
  env_New env (runOps.endpoint opts) (runOps.id opts) (runOps.key opts) true = None ->
  fetch env (client_of opts) (runOps.bucket opts) (tarKey opts) = inl d ->
  expected_digest env opts = Some E ->
  run_effects env opts fs =
  if decide (E ≠ digest_of d) then
    (Val (Some errChecksumMismatch), events_to_compare opts ++ [FAIL_line], fs)
  else
    match env_Create env (tarKey opts) with
    | Some e =>
        (Val (Some (externalError e)),
         events_to_compare opts ++ events_of_save opts, fs)
    | None =>
        (Val None,
         events_to_compare opts ++ events_of_save opts ++
           [EvStdout ("## Done" +:+ LF)],
         <[tarKey opts := []]> fs)
    end.
Proof.
  intros HN HA HE. unfold run_effects, events_to_compare, events_of_save.
  rewrite HN, HA. unfold expected_digest in HE.
  assert ((if decide (runOps.sha opts = "") then remoteSha_effects env opts
           else (Val (inl (runOps.sha opts)), []))
          = (Val (inl E),
             if decide (runOps.sha opts = "") then
               [ EvStdout (fmt.Sprintf ("## Downloading Checksum: %s/%s" +:+ LF)
                             [runOps.bucket opts; checksumKey opts]);
                 EvGetObject (runOps.bucket opts) (checksumKey opts);
                 EvStdout ("## Done" +:+ LF +:+ LF) ]
             else [])) as ->.
  { destruct (decide (runOps.sha opts = "")); [|congruence].
    unfold remoteSha_effects.
    destruct (fetch env (client_of opts) (runOps.bucket opts) (checksumKey opts))
      as [text|]; [|done].
    rewrite <- Fields_head in HE.
    destruct (strings.Fields (string_of_bytes text)); [done|].
    by injection HE as ->. }
  cbn [fst snd].
  destruct (decide (E ≠ digest_of d)).
  - by rewrite <- !app_assoc.
  - destruct (env_Create env (tarKey opts)); by rewrite <- !app_assoc.
Qed.

Lemma events_to_compare_no_fs (opts : runOps.t) :
  Forall (fun e => is_fs_event e = false) (events_to_compare opts).
Proof.
  unfold events_to_compare. destruct (decide (runOps.sha opts = ""));
    repeat (apply Forall_cons; split; [done|]); by apply Forall_nil.
Qed.

Ltac other_line H :=
  repeat (apply elem_of_cons in H as [H|H]; [cbv in H; discriminate H|]);
  by apply elem_of_nil in H.

Lemma events_to_compare_no_verdict (opts : runOps.t) :
  (PASS_line ∉ events_to_compare opts) /\ (FAIL_line ∉ events_to_compare opts).
Proof.
  unfold events_to_compare. split; intros H;
    destruct (decide (runOps.sha opts = "")); cbn [app] in H; other_line H.
Qed.

Lemma events_to_compare_no_create (opts : runOps.t) (name : string) :
  EvCreate name ∉ events_to_compare opts.
Proof.
  intros H. pose proof (events_to_compare_no_fs opts) as Hfs.
  rewrite Forall_forall in Hfs. by apply Hfs in H.
Qed.

(** The verdict of the comparison, as the run shows it. *)
Lemma run_verdict
    (env : Env) (opts : runOps.t) (w : world) (d : list byte) (E : string) :
  env_New env (runOps.endpoint opts) (runOps.id opts) (runOps.key opts) true = None ->
  fetch env (client_of opts) (runOps.bucket opts) (tarKey opts) = inl d ->
  expected_digest env opts = Some E ->
  exists r w' evs,
    run opts env w = (r, w') /\
    trace w' = trace w ++ evs /\
    (PASS_line ∈ evs <-> E = digest_of d) /\
    (FAIL_line ∈ evs <-> E <> digest_of d) /\
    (r = Val (Some errChecksumMismatch) <-> E <> digest_of d) /\
    (EvCreate (tarKey opts) ∈ evs <-> E = digest_of d).
Proof.
  intros HN HA HE.
  destruct (run_observable opts env w) as (w' & Hr & Ht & Hf).
  rewrite (run_effects_compared env opts _ d E HN HA HE) in Hr, Ht, Hf.
  destruct (events_to_compare_no_verdict opts) as [HnoP HnoF].
  pose proof (events_to_compare_no_create opts (tarKey opts)) as HnoC.
  destruct (decide (E ≠ digest_of d)) as [Hne|Heq].
  - cbn [fst snd] in *. do 3 eexists. split_and!; [done | done | ..].
    + split; [|done]. intros [H|H]%elem_of_app; [done|]. other_line H.
    + split; [done|]. intros _. apply elem_of_app. right. by left.
    + done.
    + split; [|done]. intros [H|H]%elem_of_app; [done|]. other_line H.
  - apply dec_stable in Heq.
    assert (PASS_line ∈ events_of_save opts) as HP by (by left).
    assert (EvCreate (tarKey opts) ∈ events_of_save opts) as HC
      by (by do 2 right; left).
    assert (FAIL_line ∉ events_of_save opts ++ [EvStdout ("## Done" +:+ LF)]) as HF.
    { unfold events_of_save. cbn [app]. intros H. other_line H. }
    destruct (env_Create env (tarKey opts)) as [e|]; cbn [fst snd] in *;
      do 3 eexists; (split_and!; [done | done | ..]).
    + split; [done|]. intros _. apply elem_of_app. by right.
    + split; [|done]. intros [H|H]%elem_of_app; [done|].
      destruct HF. apply elem_of_app. by left.
    + split; [done | by intros Hne].
    + split; [done|]. intros _. apply elem_of_app. by right.
    + split; [done|]. intros _. apply elem_of_app. right. apply elem_of_app. by left.
    + split; [|done]. intros [H|H]%elem_of_app; [done | done].
    + split; [done | by intros Hne].
    + split; [done|]. intros _. apply elem_of_app. right. apply elem_of_app. by left.
Qed.

Ltac run_effects_cases :=
  unfold run_effects, remoteSha_effects; cbv zeta;
  repeat match goal with
  | |- context [env_New ?e ?a ?b ?c ?d] =>
      lazymatch goal with
      | H : env_New e a b c d = _ |- _ => rewrite H
      | _ => destruct (env_New e a b c d) eqn:?
      end
  | |- context [fetch ?e ?c ?b ?k] =>
      lazymatch goal with
      | H : fetch e c b k = _ |- _ => rewrite H
      | _ => destruct (fetch e c b k) eqn:?
      end
  | |- context [decide (runOps.sha ?o = "")] =>
      destruct (decide (runOps.sha o = "")); [|try congruence]
  | |- context [strings.Fields ?t] => destruct (strings.Fields t) eqn:?
  | |- context [decide (?a ≠ ?b)] => destruct (decide (a ≠ b))
  | |- context [env_Create ?e ?n] => destruct (env_Create e n) eqn:?
  | _ => progress cbn [fst snd app]
  end.

Lemma run_effects_override_no_checksum_get env opts fs :
  runOps.sha opts <> "" ->
  Forall (fun e => is_get_of (checksumKey opts) e = false)
         (run_effects env opts fs).1.2.
Proof.
  intros Hsha. pose proof (keys_differ opts) as Hk.
  run_effects_cases;
    repeat (apply Forall_cons; split;
            [first [done | by apply bool_decide_eq_false] |]);
    by apply Forall_nil.
Qed.

Lemma run_effects_no_pass_no_file env opts fs :
  PASS_line ∉ (run_effects env opts fs).1.2 ->
  Forall (fun e => is_fs_event e = false) (run_effects env opts fs).1.2 /\
  (run_effects env opts fs).2 = fs.
Proof.
  run_effects_cases; intros HP;
    try (split; [|done];
         repeat (apply Forall_cons; split; [done|]); by apply Forall_nil);
    exfalso; apply HP; unfold PASS_line;
    repeat first [by left | right].
Qed.

Lemma run_effects_archive_first env opts fs :
  (run_effects env opts fs).1.2 = [] \/
  exists line rest,
    (run_effects env opts fs).1.2
    = EvStdout line :: EvGetObject (runOps.bucket opts) (tarKey opts) :: rest.
Proof. run_effects_cases; first [by left | right; by do 2 eexists]. Qed.

Lemma split_after_second {A} (x y a : A) (rest pre post : list A) :
  a <> x -> y <> x -> a :: y :: rest = pre ++ x :: post -> y ∈ pre.
Proof.
  intros Ha Hy H. destruct pre as [|p1 [|p2 pre]]; simplify_eq/=.
  by right; left.
Qed.

(** Digesting a reader that fails part-way returns the read error and
    leaves the trace and the files alone. *)
Lemma generateSha256_read_error (o : Object) (e : string) (env : Env) (w : world) :
  obj_err o = Some e ->
  exists w',
    generateSha256 o env w = (Val (inr (externalError e)), w') /\
    trace w' = trace w /\ files w' = files w.
Proof.
  intros He. mred. rewrite He. mred.
  eexists (mkWorld _ _ _ _). by split_and!.
Qed.

Lemma run_effects_uses_derived_keys env opts fs :
  Forall (uses_derived_keys opts) (run_effects env opts fs).1.2.
Proof.
  run_effects_cases;
    repeat (apply Forall_cons; split; [cbn; by eauto|]); by apply Forall_nil.
Qed.

(** No event of a run is a write to a file. *)
Lemma run_effects_no_write (env : Env) (opts : runOps.t) (fs : gmap string (list byte)) :
  Forall (fun e => match e with EvWrite _ _ => False | _ => True end)
         (run_effects env opts fs).1.2.
Proof.
  run_effects_cases;
    repeat (apply Forall_cons; split; [done|]); by apply Forall_nil.
Qed.

(** Whenever a run succeeds, the file it leaves under the archive key is
    empty and no write reached the file system. *)
Lemma run_success_saves_empty_file
    (env : Env) (opts : runOps.t) (w w' : world) :
  run opts env w = (Val None, w') ->
  files w' = <[tarKey opts := []]> (files w) /\
  exists evs, trace w' = trace w ++ evs /\
    Forall (fun e => match e with EvWrite _ _ => False | _ => True end) evs.
Proof.
  intros Hrun.
  destruct (run_observable opts env w) as (w2 & Hr & Ht & Hf).
  rewrite Hrun in Hr. injection Hr as Hres <-.
  rewrite Hf, Ht. clear Hrun Ht Hf. revert Hres.
  run_effects_cases; intros [=]; (split; [done|]); eexists; (split; [done|]);
    repeat (apply Forall_cons; split; [done|]); by apply Forall_nil.
Qed.

(** With no token in the checksum object the index expression panics. *)
Lemma run_without_token_panics
    (env : Env) (opts : runOps.t) (w : world) (d text : list byte) :
  env_New env (runOps.endpoint opts) (runOps.id opts) (runOps.key opts) true = None ->
  fetch env (client_of opts) (runOps.bucket opts) (tarKey opts) = inl d ->
  runOps.sha opts = "" ->
  fetch env (client_of opts) (runOps.bucket opts) (checksumKey opts) = inl text ->
  first_token (string_of_bytes text) = None ->
  exists w',
    run opts env w
    = (Panic "runtime error: index out of range [0] with length 0", w') /\
    files w' = files w.
Proof.
  intros HN HA Hsha HC Htok. rewrite <- Fields_head in Htok.
  destruct (run_observable opts env w) as (w' & Hr & _ & Hf).
  exists w'. rewrite Hr, Hf. unfold run_effects, remoteSha_effects.
  rewrite HN, HA, HC. destruct (decide (runOps.sha opts = "")); [|done].
  by destruct (strings.Fields (string_of_bytes text)).
Qed.

(** ** Checks of the library models against known values *)

Example sha256_round_constants :
  length sha256._K = 64%nat /\
  head sha256._K = Some 0x428a2f98 /\ last sha256._K = Some 0xc67178f2.
Proof. by vm_compute. Qed.

Example sha256_abc :
  digest_of (bytes_of_string "abc")
  = "ba7816bf8f01cfea414140de5dae2223b00361a396177a9cb410ff61f20015ad".
Proof. vm_compute. reflexivity. Qed.

Example sha256_empty :
  digest_of []
  = "e3b0c44298fc1c149afbf4c8996fb92427ae41e4649b934ca495991b7852b855".
Proof. vm_compute. reflexivity. Qed.

Example sha256_two_blocks :
  digest_of (bytes_of_string
    "abcdbcdecdefdefgefghfghighijhijkijkljklmklmnlmnomnopnopq")
  = "248d6a61d20638b8e5c026930c3e6039a33ce45964ff2167f6ecedd419db06c1".
Proof. vm_compute. reflexivity. Qed.

(** A no-break space (U+00A0, two bytes) and a line separator (U+2028,
    three bytes) split fields; a stray lead byte does not. *)
Example Fields_unicode_space :
  strings.Fields
    (String "194" (String "160" "a") +:+
     String "226" (String "128" (String "168" "bc")) +:+
     String "226" "d" +:+ String "009" "e")
  = ["a"; "bc" +:+ String "226" "d"; "e"].
Proof. vm_compute. reflexivity. Qed.

(** Digesting the same buffer a second time digests nothing: the first
    call has consumed it. *)
Example generateSha256_drains_buffer :
  (b ← bytes.NewBuffer hello;
   first ← generateSha256 b;
   second ← generateSha256 b;
   rest ← bytes.Len b;
   mret (first, second, rest)) (fake_store [] "") empty_world
  = (Val (inl hello_sha, inl (digest_of []), 0%nat),
     mkWorld [] ∅
       (<[2%nat := ODigest []]>
          (<[1%nat := ODigest hello]>
             (<[0%nat := OBuffer (mkBuffer [] 0)]> ∅))) 3).
Proof. vm_compute. reflexivity. Qed.

(** ** The claims *)

(** C1. The Persister is never invoked when the Verifier returns FAIL:
    whenever the computed digest of the fetched archive differs from the
    expected digest, [run] returns [errChecksumMismatch], none of the
    events of the run creates or writes a file, and the files are those
    the run started with. *)
Theorem mismatch_never_reaches_persister
    (env : Env) (opts : runOps.t) (w : world) (d : list byte) (E : string) :
  env_New env (runOps.endpoint opts) (runOps.id opts) (runOps.key opts) true = None ->
  fetch env (client_of opts) (runOps.bucket opts) (tarKey opts) = inl d ->
  expected_digest env opts = Some E ->
  E <> digest_of d ->
  exists w' evs,
    run opts env w = (Val (Some errChecksumMismatch), w') /\
    trace w' = trace w ++ evs /\
    Forall (fun e => is_fs_event e = false) evs /\
    files w' = files w.
Proof.
  intros HN HA HE Hne.
  destruct (run_observable opts env w) as (w' & Hr & Ht & Hf).
  rewrite (run_effects_compared env opts _ d E HN HA HE) in Hr, Ht, Hf.
  destruct (decide (E ≠ digest_of d)); [|done]. cbn [fst snd] in *.
  exists w', (events_to_compare opts ++ [FAIL_line]). split_and!; try done.
  apply Forall_app. split; [apply events_to_compare_no_fs|].
  by repeat constructor.
Qed.

(** The archive [b"hello"] against a checksum object whose first token is
    ["abc123"]. *)
Lemma mismatch_never_reaches_persister_witness :
  (env_New stale_store "s3.amazonaws.com" "AKIA" "secret" true = None /\
   fetch stale_store (client_of (svc_opts "")) "releases"
         (tarKey (svc_opts "")) = inl hello /\
   expected_digest stale_store (svc_opts "") = Some "abc123" /\
   "abc123" <> digest_of hello) /\
  exists w' evs,
    run (svc_opts "") stale_store empty_world
      = (Val (Some errChecksumMismatch), w') /\
    trace w' = trace empty_world ++ evs /\
    Forall (fun e => is_fs_event e = false) evs /\
    files w' = files empty_world.
Proof.
  split.
  - split_and!; vm_compute; try reflexivity; discriminate.
  - apply (mismatch_never_reaches_persister stale_store (svc_opts "")
             empty_world hello "abc123");
      vm_compute; try reflexivity; discriminate.
Defined.

(** C2. In the end-to-end scenario (archive [b"hello"], checksum object
    holding its true digest) the run passes verification and returns
    [nil], yet the file it leaves under the archive key is empty: the
    archive buffer was drained by [generateSha256] before it was copied
    to the file. *)
Theorem scenario_saves_empty_file :
  let store := fake_store hello
                 (hello_sha +:+ "  svc_v1.0.0_linux_amd64.tar.gz" +:+ LF) in
  let result := run (svc_opts "") store empty_world in
  digest_of hello = hello_sha /\
  tarKey (svc_opts "") = "svc_v1.0.0_linux_amd64.tar.gz" /\
  checksumKey (svc_opts "") = "svc_v1.0.0_linux_amd64.sha256" /\
  result.1 = Val None /\
  PASS_line ∈ trace result.2 /\
  files result.2 !! "svc_v1.0.0_linux_amd64.tar.gz" = Some [] /\
  files result.2 !! "svc_v1.0.0_linux_amd64.tar.gz" <> Some hello.
Proof.
  cbv zeta. split_and!; try (vm_compute; reflexivity).
  - vm_compute. do 9 right. left.
  - vm_compute. discriminate.
Qed.

(** C3. With no caller-supplied digest and an empty checksum object the
    run does not return an error: indexing the empty result of
    [strings.Fields] panics.  The same happens for an object holding only
    white space. *)
Theorem empty_checksum_object_panics :
  first_token "" = None /\
  (run (svc_opts "") (fake_store hello "") empty_world).1
  = Panic "runtime error: index out of range [0] with length 0" /\
  (run (svc_opts "") (fake_store hello (" " +:+ LF)) empty_world).1
  = Panic "runtime error: index out of range [0] with length 0".
Proof. by vm_compute. Qed.

(** C4. The digest resolved from the checksum object is exactly the first
    whitespace-delimited token of its text: the block of [run] that loads
    the checksum returns that token, which is [strings.Fields(text)[0]], a
    non-empty piece of the text, and the token the verdict depends on; for
    the text ["abc123  filename.tar.gz\n"] it is ["abc123"]. *)
Theorem resolved_digest_is_first_token
    (env : Env) (opts : runOps.t) (w : world) (text : list byte) (tok : string) :
  fetch env (client_of opts) (runOps.bucket opts) (checksumKey opts) = inl text ->
  first_token (string_of_bytes text) = Some tok ->
  (exists w', run_remoteSha (client_of opts) opts env w = (Val (inl tok), w')) /\
  head (strings.Fields (string_of_bytes text)) = Some tok /\
  tok <> "" /\
  (exists pre post, string_of_bytes text = pre +:+ tok +:+ post) /\
  (forall d,
     runOps.sha opts = "" ->
     env_New env (runOps.endpoint opts) (runOps.id opts) (runOps.key opts) true = None ->
     fetch env (client_of opts) (runOps.bucket opts) (tarKey opts) = inl d ->
     exists r w',
       run opts env w = (r, w') /\
       (r = Val (Some errChecksumMismatch) <-> tok <> digest_of d)) /\
  strings.Fields ("abc123  filename.tar.gz" +:+ LF) = ["abc123"; "filename.tar.gz"] /\
  first_token ("abc123  filename.tar.gz" +:+ LF) = Some "abc123".
Proof.
  intros HC Htok.
  assert (head (strings.Fields (string_of_bytes text)) = Some tok) as Hhead
    by (by rewrite Fields_head).
  destruct (first_token_piece _ _ Htok) as [Hne Hpiece].
  split_and!; try done.
  - destruct (run_remoteSha_effects opts env w) as (w' & Hr & _).
    exists w'. rewrite Hr. unfold remoteSha_effects. rewrite HC.
    destruct (strings.Fields (string_of_bytes text)); [done|].
    by injection Hhead as ->.
  - intros d Hsha HN HA.
    assert (expected_digest env opts = Some tok) as HE.
    { unfold expected_digest. rewrite HC.
      by destruct (decide (runOps.sha opts = "")). }
    destruct (run_verdict env opts w d tok HN HA HE)
      as (r & w' & evs & Hr & _ & _ & _ & Hm & _).
    by exists r, w'.
Qed.

(** The checksum object ["abc123  filename.tar.gz\n"]. *)
Lemma resolved_digest_is_first_token_witness :
  (fetch stale_store (client_of (svc_opts "")) (runOps.bucket (svc_opts ""))
         (checksumKey (svc_opts ""))
     = inl (bytes_of_string ("abc123  filename.tar.gz" +:+ LF)) /\
   first_token (string_of_bytes (bytes_of_string ("abc123  filename.tar.gz" +:+ LF)))
     = Some "abc123") /\
  exists w',
    run_remoteSha (client_of (svc_opts "")) (svc_opts "") stale_store empty_world
    = (Val (inl "abc123"), w').
Proof.
  split.
  - split; vm_compute; reflexivity.
  - apply (resolved_digest_is_first_token stale_store (svc_opts "") empty_world
             (bytes_of_string ("abc123  filename.tar.gz" +:+ LF)) "abc123");
      vm_compute; reflexivity.
Defined.

(** C5. The archive key is [{app}_{tag}_{os}_{arch}.tar.gz] and the
    checksum key is [{app}_{tag}_{os}_{arch}.sha256]: both are one base
    string followed by their suffix, they differ, stripping the seven
    characters of the suffix from either leaves the same base, and these
    are the names every run uses with the store and the file system. *)
Theorem keys_share_base (opts : runOps.t) (env : Env) (w : world) :
  let base := runOps.app opts +:+ "_" +:+ runOps.tag opts +:+ "_" +:+
              runOps.os opts +:+ "_" +:+ runOps.arch opts in
  tarKey opts = base +:+ ".tar.gz" /\
  checksumKey opts = base +:+ ".sha256" /\
  tarKey opts <> checksumKey opts /\
  str_take (String.length (tarKey opts) - 7) (tarKey opts) = base /\
  str_take (String.length (checksumKey opts) - 7) (checksumKey opts) = base /\
  exists r w' evs,
    run opts env w = (r, w') /\ trace w' = trace w ++ evs /\
    Forall (uses_derived_keys opts) evs.
Proof.
  cbv zeta. unfold tarKey, checksumKey. rewrite fileName_eq.
  split_and!; try done.
  - intros H. by apply str_app_inv_head in H.
  - rewrite str_length_app. cbn [String.length].
    rewrite Nat.add_sub. apply str_take_app.
  - rewrite str_length_app. cbn [String.length].
    rewrite Nat.add_sub. apply str_take_app.
  - destruct (run_observable opts env w) as (w' & Hr & Ht & Hf).
    do 3 eexists. split_and!; [done | done |].
    apply run_effects_uses_derived_keys.
Qed.

(** C6. A caller-supplied checksum is used unchanged and the checksum
    object is never requested: with [opts.sha] non-empty, no event of the
    run is a [GetObject] for the checksum key, and once the archive is
    fetched the verdict is that of comparing [opts.sha] itself with the
    computed digest. *)
Theorem override_skips_checksum_fetch
    (env : Env) (opts : runOps.t) (w : world) :
  runOps.sha opts <> "" ->
  exists r w' evs,
    run opts env w = (r, w') /\
    trace w' = trace w ++ evs /\
    Forall (fun e => is_get_of (checksumKey opts) e = false) evs /\
    expected_digest env opts = Some (runOps.sha opts) /\
    forall d,
      env_New env (runOps.endpoint opts) (runOps.id opts) (runOps.key opts) true = None ->
      fetch env (client_of opts) (runOps.bucket opts) (tarKey opts) = inl d ->
      (r = Val (Some errChecksumMismatch) <-> runOps.sha opts <> digest_of d) /\
      (EvCreate (tarKey opts) ∈ evs <-> runOps.sha opts = digest_of d).
Proof.
  intros Hsha.
  assert (expected_digest env opts = Some (runOps.sha opts)) as HE.
  { unfold expected_digest. by destruct (decide (runOps.sha opts = "")). }
  destruct (run_observable opts env w) as (w' & Hr & Ht & Hf).
  do 3 eexists. split_and!; [done | done | | done |].
  - by apply run_effects_override_no_checksum_get.
  - intros d HN HA.
    destruct (run_verdict env opts w d _ HN HA HE)
      as (r & w2 & evs & Hr2 & Ht2 & _ & _ & Hm & Hc).
    rewrite Hr in Hr2. injection Hr2 as <- <-.
    rewrite Ht in Ht2. apply app_inv_head in Ht2 as <-. done.
Qed.

(** The true digest of [b"hello"] given by the caller; the store has no
    usable checksum object. *)
Lemma override_skips_checksum_fetch_witness :
  runOps.sha (svc_opts hello_sha) <> "" /\
  exists r w' evs,
    run (svc_opts hello_sha) (fake_store hello "") empty_world = (r, w') /\
    trace w' = trace empty_world ++ evs /\
    Forall (fun e => is_get_of (checksumKey (svc_opts hello_sha)) e = false) evs /\
    expected_digest (fake_store hello "") (svc_opts hello_sha)
      = Some (runOps.sha (svc_opts hello_sha)) /\
    forall d,
      env_New (fake_store hello "") (runOps.endpoint (svc_opts hello_sha))
        (runOps.id (svc_opts hello_sha)) (runOps.key (svc_opts hello_sha)) true
        = None ->
      fetch (fake_store hello "") (client_of (svc_opts hello_sha))
        (runOps.bucket (svc_opts hello_sha)) (tarKey (svc_opts hello_sha)) = inl d ->
      (r = Val (Some errChecksumMismatch)
         <-> runOps.sha (svc_opts hello_sha) <> digest_of d) /\
      (EvCreate (tarKey (svc_opts hello_sha)) ∈ evs
         <-> runOps.sha (svc_opts hello_sha) = digest_of d).
Proof.
  split.
  - vm_compute. discriminate.
  - apply (override_skips_checksum_fetch (fake_store hello "")
             (svc_opts hello_sha) empty_world).
    vm_compute. discriminate.
Defined.

(** C7. Digest computation is a deterministic function of the input
    bytes: for every byte sequence, in whatever environment and world it
    is computed, [generateSha256] returns the same string, which is 64
    characters long and made of lowercase hexadecimal digits. *)
Theorem digest_is_deterministic_hex64
    (p : list byte) (env1 env2 : Env) (w1 w2 : world) :
  exists s w1' w2',
    digest_bytes p env1 w1 = (Val (inl s), w1') /\
    digest_bytes p env2 w2 = (Val (inl s), w2') /\
    String.length s = 64%nat /\
    string_forall is_lower_hex s = true.
Proof.
  assert (forall env w, exists w',
            digest_bytes p env w = (Val (inl (digest_of p)), w')) as H.
  { intros env w. unfold digest_bytes.
    assert (bytes.NewBuffer p env w
            = (Val (BufferAt (next w)),
               mkWorld (trace w) (files w)
                       (<[next w := OBuffer (mkBuffer p 0)]> (heap w))
                       (S (next w)))) as HB by reflexivity.
    rewrite (bind_val _ _ _ _ _ _ HB).
    match goal with |- context [generateSha256 _ env ?w0] =>
      destruct (generateSha256_buffer env w0 (next w) (mkBuffer p 0))
        as (w' & Hg & _) end.
    - cbn. apply lookup_insert_eq.
    - cbn. lia.
    - by exists w'. }
  destruct (H env1 w1) as [w1' H1]. destruct (H env2 w2) as [w2' H2].
  exists (digest_of p), w1', w2'.
  split_and!; [done | done | apply digest_of_length | apply digest_of_lower_hex].
Qed.

(** C8. The Verifier returns PASS if and only if the expected digest
    equals the computed digest as strings: the run prints the PASS line
    and goes on to create the file exactly when they are equal, and prints
    the FAIL line and returns [errChecksumMismatch] exactly when they
    differ. *)
Theorem verifier_passes_iff_digests_equal
    (env : Env) (opts : runOps.t) (w : world) (d : list byte) (E : string) :
  env_New env (runOps.endpoint opts) (runOps.id opts) (runOps.key opts) true = None ->
  fetch env (client_of opts) (runOps.bucket opts) (tarKey opts) = inl d ->
  expected_digest env opts = Some E ->
  exists r w' evs,
    run opts env w = (r, w') /\
    trace w' = trace w ++ evs /\
    (PASS_line ∈ evs <-> E = digest_of d) /\
    (FAIL_line ∈ evs <-> E <> digest_of d) /\
    (r = Val (Some errChecksumMismatch) <-> E <> digest_of d) /\
    (EvCreate (tarKey opts) ∈ evs <-> E = digest_of d).
Proof. apply run_verdict. Qed.

(** The digest of [b"hello"] given in upper case: the verdict is FAIL. *)
Lemma verifier_passes_iff_digests_equal_witness :
  (env_New (fake_store hello "") "s3.amazonaws.com" "AKIA" "secret" true = None /\
   fetch (fake_store hello "") (client_of (svc_opts hello_sha_upper)) "releases"
         (tarKey (svc_opts hello_sha_upper)) = inl hello /\
   expected_digest (fake_store hello "") (svc_opts hello_sha_upper)
     = Some hello_sha_upper) /\
  exists r w' evs,
    run (svc_opts hello_sha_upper) (fake_store hello "") empty_world = (r, w') /\
    trace w' = trace empty_world ++ evs /\
    (PASS_line ∈ evs <-> hello_sha_upper = digest_of hello) /\
    (FAIL_line ∈ evs <-> hello_sha_upper <> digest_of hello) /\
    (r = Val (Some errChecksumMismatch) <-> hello_sha_upper <> digest_of hello) /\
    (EvCreate (tarKey (svc_opts hello_sha_upper)) ∈ evs
     <-> hello_sha_upper = digest_of hello).
Proof.
  split.
  - split_and!; vm_compute; reflexivity.
  - apply (verifier_passes_iff_digests_equal (fake_store hello "")
             (svc_opts hello_sha_upper) empty_world hello hello_sha_upper);
      vm_compute; reflexivity.
Defined.

(** C9. On PASS the Persister does not write the archive bytes.  [run]
    creates or truncates the file named by the archive key and then
    copies the archive buffer to it, but [generateSha256] has drained
    that buffer: no run ever calls [Write] on the file, and what the
    file system would answer to a write changes neither the result of a
    run nor the files it leaves, so no write error can reach the caller.
    With the true digest given by the caller and an older file in place,
    the run passes, returns [nil] and leaves the file empty, holding
    neither the archive nor the old content; on a file system that
    refuses every write the run passes and returns [nil] all the same. *)
Theorem persister_writes_no_bytes :
  (forall (env : Env) (opts : runOps.t) (w : world),
     exists evs,
       trace (run opts env w).2 = trace w ++ evs /\
       Forall (fun e => match e with EvWrite _ _ => False | _ => True end) evs) /\
  (forall (env : Env) (opts : runOps.t) (w : world)
          (write : string -> list byte -> nat * option string),
     let env' := mkEnv (env_New env) (env_GetObject env) (env_Create env) write in
     (run opts env' w).1 = (run opts env w).1 /\
     files (run opts env' w).2 = files (run opts env w).2) /\
  let passed :=
    run (svc_opts hello_sha) (fake_store hello "") world_with_old_archive in
  let refused := run (svc_opts hello_sha) write_refusing_store empty_world in
  files world_with_old_archive !! tarKey (svc_opts hello_sha)
    = Some (bytes_of_string "old release") /\
  passed.1 = Val None /\
  PASS_line ∈ trace passed.2 /\
  files passed.2 !! tarKey (svc_opts hello_sha) = Some [] /\
  hello <> [] /\
  refused.1 = Val None /\
  PASS_line ∈ trace refused.2 /\
  files refused.2 !! tarKey (svc_opts hello_sha) = Some [].
Proof.
  cbv zeta. split_and!.
  - intros env opts w.
    destruct (run_observable opts env w) as (w' & Hr & Ht & _).
    rewrite Hr. cbn [snd]. eexists. split; [exact Ht|].
    apply run_effects_no_write.
  - intros env opts w write.
    set (env' := mkEnv (env_New env) (env_GetObject env) (env_Create env) write).
    destruct (run_observable opts env w) as (w1 & Hr1 & _ & Hf1).
    destruct (run_observable opts env' w) as (w2 & Hr2 & _ & Hf2).
    rewrite Hr1, Hr2. cbn [fst snd]. rewrite Hf1, Hf2.
    by change (run_effects env' opts (files w))
      with (run_effects env opts (files w)).
  - vm_compute. reflexivity.
  - vm_compute. reflexivity.
  - vm_compute. do 6 right. left.
  - vm_compute. reflexivity.
  - discriminate.
  - vm_compute. reflexivity.
  - vm_compute. do 6 right. left.
  - vm_compute. reflexivity.
Qed.

(** C10. Every failure before verification passes leaves the files alone,
    and the archive is requested before the checksum object.  In every
    run: unless the PASS line was printed, no event creates or writes a
    file and the files are unchanged; a failed archive fetch returns the
    archive error with no request for the checksum key; a failed checksum
    fetch returns the checksum error; a request for the checksum key is
    always preceded by the request for the archive key; and a read error
    while digesting is returned by [generateSha256] with trace and files
    as they were. *)
Theorem failures_before_pass_touch_no_file
    (env : Env) (opts : runOps.t) (w : world) :
  exists r w' evs,
    run opts env w = (r, w') /\
    trace w' = trace w ++ evs /\
    ((PASS_line ∉ evs) ->
       Forall (fun e => is_fs_event e = false) evs /\ files w' = files w) /\
    (forall e,
       env_New env (runOps.endpoint opts) (runOps.id opts) (runOps.key opts) true = None ->
       fetch env (client_of opts) (runOps.bucket opts) (tarKey opts) = inr e ->
       r = Val (Some (fmt.Errorf "Can't download archive from %s/%s"
                        [runOps.bucket opts; tarKey opts])) /\
       Forall (fun e => is_fs_event e = false) evs /\ files w' = files w /\
       Forall (fun e => is_get_of (checksumKey opts) e = false) evs) /\
    (forall d e,
       env_New env (runOps.endpoint opts) (runOps.id opts) (runOps.key opts) true = None ->
       fetch env (client_of opts) (runOps.bucket opts) (tarKey opts) = inl d ->
       runOps.sha opts = "" ->
       fetch env (client_of opts) (runOps.bucket opts) (checksumKey opts) = inr e ->
       r = Val (Some (fmt.Errorf "Can't download checksum from %s/%s"
                        [runOps.bucket opts; checksumKey opts])) /\
       Forall (fun e => is_fs_event e = false) evs /\ files w' = files w) /\
    (forall pre post,
       evs = pre ++ EvGetObject (runOps.bucket opts) (checksumKey opts) :: post ->
       EvGetObject (runOps.bucket opts) (tarKey opts) ∈ pre) /\
    (forall (o : Object) (e : string) (w0 : world),
       obj_err o = Some e ->
       exists w1,
         generateSha256 o env w0 = (Val (inr (externalError e)), w1) /\
         trace w1 = trace w0 /\ files w1 = files w0).
Proof.
  destruct (run_observable opts env w) as (w' & Hr & Ht & Hf).
  pose proof (keys_differ opts) as Hk.
  do 3 eexists. split_and!; [done | done | ..].
  - intros HP. rewrite Hf. by apply run_effects_no_pass_no_file.
  - intros e HN HA. rewrite Hf. unfold run_effects. rewrite HN, HA.
    cbn [fst snd]. split_and!; [done | | done |];
      repeat (apply Forall_cons; split;
              [first [done | by apply bool_decide_eq_false] |]);
      by apply Forall_nil.
  - intros d e HN HA Hsha HC. rewrite Hf. unfold run_effects, remoteSha_effects.
    rewrite HN, HA, HC. destruct (decide (runOps.sha opts = "")); [|done].
    cbn [fst snd app]. split_and!; [done | | done].
    repeat (apply Forall_cons; split; [done|]). by apply Forall_nil.
  - intros pre post Hsplit.
    destruct (run_effects_archive_first env opts (files w))
      as [Hnil | (line & rest & Hshape)].
    + rewrite Hnil in Hsplit. by destruct pre.
    + rewrite Hshape in Hsplit.
      eapply split_after_second; [| | exact Hsplit]; [done|].
      intros [= H]. by apply Hk.
  - intros o e w0 He. by apply generateSha256_read_error.
Qed.

(** ** The command line *)

Lemma pbind_returned {A B} (m : Proc A) (f : A -> Proc B) h p a p' :
  m h p = (Returned a, p') -> (m ≫= f) h p = f a h p'.
Proof. intros H. unfold mbind, Proc_bind. by rewrite H. Qed.

Lemma defaultOS_step (key fallback : string) (h : Host) (p : process) :
  defaultOS key fallback h p = (Returned (getenv_or h key fallback), p).
Proof.
  unfold defaultOS, getenv_or, os_Getenv, host, mbind, Proc_bind, mret, Proc_ret.
  by destruct (decide _).
Qed.

Lemma flag_String_step (name value usage : string) (h : Host) (p : process) :
  flag.Lookup (CommandLine p) name = None ->
  flag_String name value usage h p
  = (Returned (ValueOf name),
     mkProcess (proc_world p) (stderr p)
       (flag.mkFlagSet
          (flag.formal (CommandLine p) ++ [flag.mkFlag name usage value value])
          (flag.args (CommandLine p)))).
Proof.
  intros H. unfold flag_String, get_CommandLine, set_CommandLine,
    mbind, Proc_bind, mret, Proc_ret. by rewrite H.
Qed.

Lemma deref_step (name : string) (fl : flag.Flag) (h : Host) (p : process) :
  flag.Lookup (CommandLine p) name = Some fl ->
  deref (ValueOf name) h p = (Returned (flag.Value fl), p).
Proof.
  intros H. unfold deref, get_CommandLine, mbind, Proc_bind, mret, Proc_ret.
  by rewrite H.
Qed.

Lemma PrintDefaults_step (h : Host) (p : process) :
  flag_PrintDefaults h p
  = (Returned tt,
     mkProcess (proc_world p)
               (stderr p ++ flag.defaults (Quote h) (CommandLine p))
               (CommandLine p)).
Proof.
  unfold flag_PrintDefaults, host, get_CommandLine, mbind, Proc_bind.
  generalize (flag.defaults (Quote h) (CommandLine p)) as l.
  destruct p as [w err f]. cbn [proc_world stderr CommandLine].
  intros l. revert err. induction l as [|x l IH]; intros err; cbn [foldr].
  - by rewrite app_nil_r.
  - unfold Stderr_Write at 1. cbn [proc_world stderr CommandLine].
    rewrite IH. by rewrite <- app_assoc.
Qed.

Lemma usage_step (h : Host) (p : process) :
  usage h p
  = (Returned tt,
     mkProcess (proc_world p) (stderr p ++ usage_text h (CommandLine p))
               (CommandLine p)).
Proof.
  unfold usage, fmt_Fprintln_Stderr.
  unfold mbind at 1, Proc_bind at 1. unfold Stderr_Write.
  rewrite PrintDefaults_step. cbn [proc_world stderr CommandLine].
  unfold usage_text. by rewrite <- app_assoc.
Qed.

Lemma exit_step {A} (err : error) (printUsage : bool) (h : Host) (p : process) :
  @exit A err printUsage h p
  = (Exited 1,
     mkProcess (println (Error err) (proc_world p))
               (stderr p ++ if printUsage then usage_text h (CommandLine p) else [])
               (CommandLine p)).
Proof.
  unfold exit, fmt_Println, lift, emit, println, os_Exit.
  unfold mbind, Proc_bind. cbn [proc_world stderr CommandLine].
  destruct printUsage.
  - by rewrite usage_step.
  - unfold mret, Proc_ret. by rewrite app_nil_r.
Qed.

Lemma flag_Parse_step (h : Host) (p : process) :
  flag_Parse usage h p
  = let '(err, f) := flag.Parse (CommandLine p) (argv h) in
    match err with
    | None => (Returned tt, mkProcess (proc_world p) (stderr p) f)
    | Some flag.ErrHelp =>
        (Exited 0, mkProcess (proc_world p) (stderr p ++ usage_text h f) f)
    | Some (flag.failf msg) =>
        (Exited 2,
         mkProcess (proc_world p)
                   ((stderr p ++ [msg +:+ LF]) ++ usage_text h f) f)
    end.
Proof.
  unfold flag_Parse, host, get_CommandLine, set_CommandLine, fmt_Fprintln_Stderr,
    Stderr_Write, os_Exit.
  unfold mbind, Proc_bind.
  destruct (flag.Parse (CommandLine p) (argv h)) as [[[|msg]|] f];
    cbn [proc_world stderr CommandLine]; try rewrite usage_step; done.
Qed.

(** Parsing changes the values of flags only. *)
Lemma Set_signatures (f : flag.FlagSet) (name value : string) :
  signatures (flag.Set_ f name value) = signatures f.
Proof.
  unfold signatures, flag.Set_. cbn [flag.formal]. rewrite map_map.
  apply map_ext. intros fl. by destruct (String.eqb _ _).
Qed.

Lemma parseOne_signatures (f : flag.FlagSet) :
  signatures (flag.parseOne f).2 = signatures f.
Proof.
  unfold flag.parseOne.
  repeat match goal with
         | |- context [match ?x with _ => _ end] => destruct x
         end;
    cbn [snd]; by rewrite ?Set_signatures.
Qed.

Lemma Parse_loop_signatures (n : nat) (f : flag.FlagSet) :
  signatures (flag.Parse_loop n f).2 = signatures f.
Proof.
  revert f; induction n as [|n IH]; intros f; cbn [flag.Parse_loop];
    pose proof (parseOne_signatures f) as H;
    destruct (flag.parseOne f) as [[[|] err] f']; cbn [snd] in *; try done.
  by rewrite IH.
Qed.

Lemma Parse_signatures (f : flag.FlagSet) (arguments : list string) :
  signatures (flag.Parse f arguments).2 = signatures f.
Proof. unfold flag.Parse. by rewrite Parse_loop_signatures. Qed.

Lemma signature_Name (a b : flag.Flag) :
  signature a = signature b -> flag.Name a = flag.Name b.
Proof. unfold signature. congruence. Qed.

Lemma Lookup_signatures (f g : flag.FlagSet) (name : string) :
  signatures f = signatures g ->
  match flag.Lookup f name, flag.Lookup g name with
  | Some a, Some b => signature a = signature b
  | None, None => True
  | _, _ => False
  end.
Proof.
  unfold signatures, flag.Lookup.
  generalize (flag.formal g) as lg. induction (flag.formal f) as [|a l IH];
    intros [|b lg] H; cbn [map] in H.
  all: cbn [find]; try done.
  injection H as HN HU HD Hl.
  assert (signature a = signature b) as Hab by (unfold signature; congruence).
  rewrite <- HN.
  destruct (String.eqb (flag.Name a) name); [done | by apply IH].
Qed.

Lemma insert_by_name_signatures (a b : flag.Flag) (l l' : list flag.Flag) :
  signature a = signature b -> map signature l = map signature l' ->
  map signature (flag.insert_by_name a l) = map signature (flag.insert_by_name b l').
Proof.
  intros Hab. revert l'. induction l as [|x l IH]; intros [|y l'] H; cbn [map] in H; try done.
  - cbn. by rewrite Hab.
  - injection H as HN HU HD Hl.
    assert (signature x = signature y) as Hxy by (unfold signature; congruence).
    cbn [flag.insert_by_name].
    rewrite <- (signature_Name _ _ Hab), <- (signature_Name _ _ Hxy).
    destruct (String.leb _ _); cbn [map]; [congruence|].
    f_equal; [done | by apply IH].
Qed.

Lemma sortFlags_signatures (l l' : list flag.Flag) :
  map signature l = map signature l' ->
  map signature (flag.sortFlags l) = map signature (flag.sortFlags l').
Proof.
  revert l'. induction l as [|x l IH]; intros [|y l'] H; cbn [map] in H; try done.
  injection H as HN HU HD Hl.
  assert (signature x = signature y) as Hxy by (unfold signature; congruence).
  cbn [flag.sortFlags foldr]. apply insert_by_name_signatures; [done|].
  by apply IH.
Qed.

Lemma defaults_entry_signature (q : string -> string) (a b : flag.Flag) :
  signature a = signature b ->
  flag.defaults_entry q a = flag.defaults_entry q b.
Proof.
  destruct a, b. unfold signature. cbn. intros [= -> -> ->]. done.
Qed.

Lemma defaults_signatures (q : string -> string) (f g : flag.FlagSet) :
  signatures f = signatures g -> flag.defaults q f = flag.defaults q g.
Proof.
  intros H. unfold flag.defaults.
  apply sortFlags_signatures in H. revert H.
  generalize (flag.sortFlags (flag.formal g)) as lg.
  induction (flag.sortFlags (flag.formal f)) as [|a l IH];
    intros [|b lg] H; cbn [map] in H; try done.
  injection H as HN HU HD Hl.
  assert (signature a = signature b) as Hab by (unfold signature; congruence).
  cbn [map]. f_equal; [by apply defaults_entry_signature | by apply IH].
Qed.

Lemma pbind_exited {A B} (m : Proc A) (f : A -> Proc B) h p code p' :
  m h p = (Exited code, p') -> (m ≫= f) h p = (Exited code, p').
Proof. intros H. unfold mbind, Proc_bind. by rewrite H. Qed.

Lemma deref_value (name : string) (h : Host) (p : process) :
  is_Some (flag.Lookup (CommandLine p) name) ->
  deref (ValueOf name) h p = (Returned (value_of (CommandLine p) name), p).
Proof.
  intros [fl H]. rewrite (deref_step name fl h p H). unfold value_of. by rewrite H.
Qed.

(** The five flags of [main] are still there after parsing. *)
Lemma main_flags_defined (h : Host) (f : flag.FlagSet) (name : string) :
  signatures f = signatures (main_flags h) ->
  name ∈ ["bucket"; "id"; "key"; "endpoint"; "sha"] ->
  is_Some (flag.Lookup f name).
Proof.
  intros Hsig Hin. pose proof (Lookup_signatures f (main_flags h) name Hsig) as H.
  destruct (flag.Lookup f name); [by eexists|].
  exfalso. repeat (apply elem_of_cons in Hin as [->|Hin]; [by cbn in H|]).
  by apply elem_of_nil in Hin.
Qed.

Ltac pstep tac :=
  erewrite pbind_returned by tac;
  cbn [proc_world stderr CommandLine flag.formal flag.args app].

(** [main], from a fresh process, comes to [main_outcome]. *)
Lemma main_observable (h : Host) (w : world) :
  main h (start w) = main_outcome h w.
Proof.
  unfold main, start.
  pstep ltac:(apply flag_String_step; reflexivity).
  pstep ltac:(apply defaultOS_step).
  pstep ltac:(apply flag_String_step; reflexivity).
  pstep ltac:(apply defaultOS_step).
  pstep ltac:(apply flag_String_step; reflexivity).
  pstep ltac:(apply flag_String_step; reflexivity).
  pstep ltac:(apply flag_String_step; reflexivity).
  change (flag.mkFlagSet _ []) with (main_flags h).
  unfold mbind at 1, Proc_bind at 1. rewrite flag_Parse_step.
  cbn [proc_world stderr CommandLine app].
  unfold main_outcome.
  pose proof (Parse_signatures (main_flags h) (argv h)) as Hsig.
  destruct (flag.Parse (main_flags h) (argv h)) as [[[|msg]|] f];
    cbn [snd] in Hsig; [done | done |].
  assert (forall name q w0 e,
            name ∈ ["bucket"; "id"; "key"; "endpoint"; "sha"] ->
            deref (ValueOf name) q (mkProcess w0 e f)
            = (Returned (value_of f name), mkProcess w0 e f)) as Hderef.
  { intros name q w0 e Hin. apply deref_value. cbn [CommandLine].
    by apply (main_flags_defined h). }
  pstep ltac:(apply Hderef; set_solver).
  destruct (decide (value_of f "bucket" = "")).
  { apply pbind_exited. by rewrite exit_step. }
  pstep ltac:(reflexivity).
  pstep ltac:(apply Hderef; set_solver).
  destruct (decide (value_of f "id" = "")).
  { apply pbind_exited. by rewrite exit_step. }
  pstep ltac:(reflexivity).
  pstep ltac:(apply Hderef; set_solver).
  destruct (decide (value_of f "key" = "")).
  { apply pbind_exited. by rewrite exit_step. }
  pstep ltac:(reflexivity).
  pstep ltac:(reflexivity).
  destruct (flag.args f) as [|app [|tag rest]]; cbn [length Nat.ltb Nat.leb].
  { apply pbind_exited. by rewrite exit_step. }
  { apply pbind_exited. by rewrite exit_step. }
  pstep ltac:(reflexivity).
  pstep ltac:(reflexivity).
  pstep ltac:(reflexivity).
  pstep ltac:(apply Hderef; set_solver).
  pstep ltac:(apply Hderef; set_solver).
  pstep ltac:(apply Hderef; set_solver).
  pstep ltac:(reflexivity).
  pstep ltac:(apply defaultOS_step).
  pstep ltac:(apply defaultOS_step).
  pstep ltac:(apply Hderef; set_solver).
  pstep ltac:(apply Hderef; set_solver).
  unfold mbind, Proc_bind, lift, main_opts. cbn [proc_world stderr CommandLine].
  by destruct (run _ (host_env h) w) as [[[err|]|msg] w'].
Qed.

(** *** Parsing *)

Lemma parseOne_seen_shrinks (f f' : flag.FlagSet) (err : option flag.parse_error) :
  flag.parseOne f = (true, err, f') ->
  (length (flag.args f') < length (flag.args f))%nat.
Proof.
  unfold flag.parseOne. destruct f as [fm [|s rest]]; cbn [flag.args flag.formal].
  { by intros [=]. }
  repeat match goal with
         | |- context [match ?x with _ => _ end] => destruct x
         end;
    intros [= <- <-]; cbn [flag.args flag.Set_ length]; lia.
Qed.

(** Any number of rounds at least the number of arguments gives the same
    result: the loop never runs out. *)
Lemma Parse_loop_enough (n m : nat) (f : flag.FlagSet) :
  (length (flag.args f) <= n)%nat -> (length (flag.args f) <= m)%nat ->
  flag.Parse_loop n f = flag.Parse_loop m f.
Proof.
  revert m f. induction n as [|n IH]; intros [|m] f Hn Hm; cbn [flag.Parse_loop];
    destruct (flag.parseOne f) as [[[|] err] f'] eqn:E; try done;
    apply parseOne_seen_shrinks in E; try lia.
  apply IH; lia.
Qed.

Lemma Parse_seen (f f' : flag.FlagSet) (arguments : list string)
    (err : option flag.parse_error) :
  flag.parseOne (flag.mkFlagSet (flag.formal f) arguments) = (true, err, f') ->
  flag.Parse f arguments = flag.Parse f' (flag.args f').
Proof.
  intros E. unfold flag.Parse.
  pose proof (parseOne_seen_shrinks _ _ _ E) as Hlt. cbn [flag.args] in Hlt.
  destruct arguments as [|a rest]; [cbn in Hlt; lia|].
  cbn [length flag.Parse_loop]. rewrite E.
  destruct f' as [fm' args']. cbn [flag.formal flag.args] in *.
  apply Parse_loop_enough; cbn [flag.args]; cbn in Hlt; lia.
Qed.

Lemma Parse_nil (f : flag.FlagSet) :
  flag.Parse f [] = (None, flag.mkFlagSet (flag.formal f) []).
Proof. reflexivity. Qed.

(** Parsing stops at the first argument that is not a flag and leaves it,
    and everything after it, as positional arguments. *)
Lemma Parse_stops (f : flag.FlagSet) (a : string) (rest : list string) :
  not_a_flag a = true ->
  flag.Parse f (a :: rest) = (None, flag.mkFlagSet (flag.formal f) (a :: rest)).
Proof.
  intros Ha. unfold flag.Parse. cbn [length flag.Parse_loop].
  unfold flag.parseOne. cbn [flag.args].
  destruct a as [|c [|c1 t1]]; try done.
  all: destruct (Ascii.eqb_spec c "-"%char) as [->|Hc]; try done.
  all: destruct c as [[] [] [] [] [] [] [] []]; try done.
Qed.

(** [-name value]: the flag takes the next argument as its value. *)
Lemma Parse_flag_value (f : flag.FlagSet) (name v : string) (rest : list string) :
  plain_name name = true ->
  is_Some (flag.Lookup f name) ->
  flag.Parse f (("-" +:+ name) :: v :: rest)
  = flag.Parse (flag.Set_ f name v) rest.
Proof.
  intros Hp [fl Hfl].
  rewrite (Parse_seen f (flag.Set_ (flag.mkFlagSet (flag.formal f) rest) name v)
             _ None); [done|].
  unfold plain_name in Hp. apply andb_true_iff in Hp as [Hbad Hcut].
  apply negb_true_iff in Hbad.
  unfold flag.parseOne. cbn [flag.args flag.formal].
  destruct name as [|c t]; [done|].
  rewrite str_app_cons, str_app_nil_l.
  assert (Ascii.eqb c "-"%char = false) as Hc.
  { cbn [flag.bad_name] in Hbad. by apply orb_false_iff in Hbad as [-> _]. }
  rewrite Hc. cbn [andb str_drop]. rewrite Hbad.
  destruct (flag.cut_value (String c t)) as [name' [v'|]] eqn:Ecut; [done|].
  assert (name' = String c t) as ->.
  { unfold flag.cut_value in Ecut. destruct (flag.cut "=" t) as [[? ?]|]; congruence. }
  unfold flag.Lookup in *. cbn [flag.formal]. by rewrite Hfl.
Qed.

(** *** From [main_outcome] to what a user sees *)

Lemma usage_text_formal (h : Host) (f : flag.FlagSet) (l : list string) :
  usage_text h (flag.mkFlagSet (flag.formal f) l) = usage_text h f.
Proof. reflexivity. Qed.

(** Once the flags parse and the checks pass, [main] does what [run]
    does and reports it. *)
Lemma main_runs (h : Host) (w : world) (f : flag.FlagSet)
    (app tag : string) (rest : list string) :
  flag.Parse (main_flags h) (argv h) = (None, f) ->
  value_of f "bucket" <> "" -> value_of f "id" <> "" -> value_of f "key" <> "" ->
  flag.args f = app :: tag :: rest ->
  seen (main h (start w)) = reported h (run (main_opts h f app tag) (host_env h) w).
Proof.
  intros HP Hb Hi Hk Ha. rewrite main_observable. unfold main_outcome.
  rewrite HP, Ha. repeat (destruct (decide _); [done|]).
  by destruct (run _ (host_env h) w) as [[[err|]|msg] w'].
Qed.

Lemma main_refuses_bucket (h : Host) (w : world) (f : flag.FlagSet) :
  flag.Parse (main_flags h) (argv h) = (None, f) ->
  value_of f "bucket" = "" ->
  main h (start w)
  = (Exited 1, mkProcess (println "-bucket is required" w) (usage_text h f) f).
Proof.
  intros HP Hb. rewrite main_observable. unfold main_outcome.
  rewrite HP. by destruct (decide _).
Qed.

(** The command line [-bucket b -id i -key k app tag ...]. *)
Lemma Parse_three_flags (h : Host) (b i k app : string) (rest : list string) :
  not_a_flag app = true ->
  flag.Parse (main_flags h)
    ("-bucket" :: b :: "-id" :: i :: "-key" :: k :: app :: rest)
  = (None,
     flag.mkFlagSet
       (flag.formal
          (flag.Set_ (flag.Set_ (flag.Set_ (main_flags h) "bucket" b) "id" i)
                     "key" k))
       (app :: rest)).
Proof.
  intros Happ.
  etrans; [apply (Parse_flag_value _ "bucket"); [done | by eexists]|].
  etrans; [apply (Parse_flag_value _ "id"); [done | by eexists]|].
  etrans; [apply (Parse_flag_value _ "key"); [done | by eexists]|].
  by apply Parse_stops.
Qed.

(** The command line [-bucket b app tag ...]. *)
Lemma Parse_bucket_only (h : Host) (b app : string) (rest : list string) :
  not_a_flag app = true ->
  flag.Parse (main_flags h) ("-bucket" :: b :: app :: rest)
  = (None,
     flag.mkFlagSet (flag.formal (flag.Set_ (main_flags h) "bucket" b))
                    (app :: rest)).
Proof.
  intros Happ.
  etrans; [apply (Parse_flag_value _ "bucket"); [done | by eexists]|].
  by apply Parse_stops.
Qed.

Lemma getenv_or_set (h : Host) (key fallback v : string) :
  environ h !! key = Some v -> v <> "" -> getenv_or h key fallback = v.
Proof.
  intros Hv Hne. unfold getenv_or. rewrite Hv. simpl.
  by destruct (decide (v ≠ "")).
Qed.

Lemma getenv_or_without_empty (h : Host) (key fallback : string) :
  getenv_or (without_empty h) key fallback = getenv_or h key fallback.
Proof.
  unfold getenv_or, without_empty. cbn [environ].
  destruct (environ h !! key) as [v|] eqn:E.
  - destruct (decide (v = "")) as [->|Hv].
    + rewrite map_lookup_filter_None_2; [done|].
      right. intros x Hx. cbn. rewrite E in Hx. by injection Hx as <-; intros ?.
    + by rewrite (map_lookup_filter_Some_2 _ _ key v).
  - rewrite map_lookup_filter_None_2; [done|]. by left.
Qed.

Lemma no_fs_no_write (evs : list event) :
  Forall (fun e => is_fs_event e = false) evs ->
  Forall (fun e => match e with EvWrite _ _ => False | _ => True end) evs.
Proof. intros H. eapply Forall_impl; [done|]. by intros []. Qed.

(** A run that gets a client starts by asking for the archive. *)
Lemma run_effects_starts (env : Env) (opts : runOps.t) (fs : gmap string (list byte)) :
  env_New env (runOps.endpoint opts) (runOps.id opts) (runOps.key opts) true = None ->
  exists rest,
    (run_effects env opts fs).1.2
    = EvStdout (fmt.Sprintf ("## Downloading Archive: %s/%s" +:+ LF)
                  [runOps.bucket opts; tarKey opts])
      :: EvGetObject (runOps.bucket opts) (tarKey opts) :: rest.
Proof. intros HN. run_effects_cases; by eexists. Qed.

Lemma tarKey_eq (opts : runOps.t) :
  tarKey opts =
  runOps.app opts +:+ "_" +:+ runOps.tag opts +:+ "_" +:+
  runOps.os opts +:+ "_" +:+ runOps.arch opts +:+ ".tar.gz".
Proof. unfold tarKey. rewrite fileName_eq. by rewrite !str_app_assoc. Qed.

(** ** Further properties of the command line *)

(** The report of a panic is not the usage. *)
Lemma usage_is_no_panic_report (h : Host) (msg : string) :
  usageTemplate +:+ LF = panic_report h msg -> False.
Proof.
  intros H. apply (f_equal (String.get 0)) in H. vm_compute in H. discriminate H.
Qed.

Lemma usage_text_signatures (h : Host) (f g : flag.FlagSet) :
  signatures f = signatures g -> usage_text h f = usage_text h g.
Proof. intros H. unfold usage_text. by rewrite (defaults_signatures _ f g H). Qed.

(** The usage shows the defaults, whatever was parsed. *)
Lemma usage_text_parsed (h : Host) :
  usage_text h (flag.Parse (main_flags h) (argv h)).2 = usage_text h (main_flags h).
Proof. apply usage_text_signatures, Parse_signatures. Qed.

(** X1. [main] checks its inputs in a fixed order and stops at the first
    one missing.  When the flags parse, an empty [-bucket] is reported
    first, then an empty [-id], then an empty [-key], then the missing
    positional arguments; each time the message goes to standard output,
    the usage (with the defaults of the flags, not the values parsed) to
    standard error, the process exits with status 1, and nothing else
    has happened to the world. *)
Theorem main_checks_in_order (h : Host) (w : world) :
  (flag.Parse (main_flags h) (argv h)).1 = None ->
  let f := (flag.Parse (main_flags h) (argv h)).2 in
  let refused (msg : string) :=
    main h (start w)
    = (Exited 1, mkProcess (println msg w) (usage_text h (main_flags h)) f) in
  (value_of f "bucket" = "" -> refused "-bucket is required") /\
  (value_of f "bucket" <> "" -> value_of f "id" = "" ->
     refused "-id is required") /\
  (value_of f "bucket" <> "" -> value_of f "id" <> "" ->
     value_of f "key" = "" -> refused "-key is required") /\
  (value_of f "bucket" <> "" -> value_of f "id" <> "" ->
     value_of f "key" <> "" ->
     (flag.args f = [] -> refused "APP and TAG are required") /\
     (forall app, flag.args f = [app] -> refused "TAG is required")).
Proof.
  intros HP f refused. subst refused. cbv beta.
  rewrite main_observable. unfold main_outcome. subst f.
  rewrite <- usage_text_parsed.
  destruct (flag.Parse (main_flags h) (argv h)) as [err f]. cbn [fst snd] in *.
  subst err.
  split_and!; intros; repeat (destruct (decide _); try done).
  split; [by intros -> | by intros app ->].
Qed.

(** A bucket but no access key, in an empty environment. *)
Lemma main_checks_in_order_witness :
  let h := test_host [] ["-bucket"; "releases"; "svc"; "v1.0.0"] in
  (flag.Parse (main_flags h) (argv h)).1 = None /\
  main h (start empty_world)
  = (Exited 1,
     mkProcess (println "-id is required" empty_world)
       (usage_text h (main_flags h))
       (flag.Parse (main_flags h) (argv h)).2).
Proof.
  cbv zeta. split; [reflexivity|].
  apply (main_checks_in_order
           (test_host [] ["-bucket"; "releases"; "svc"; "v1.0.0"]) empty_world);
    [reflexivity | by vm_compute | reflexivity].
Defined.

(** X2. Whatever the command line and the environment, if [main]
    prints its usage it exits, through [os.Exit], without having called
    [run]: no request went to the store, no file was created or written,
    and at most one line was added to standard output.  The report of a
    panic, the only other thing that reaches standard error, is not the
    usage. *)
Theorem main_usage_means_untouched (h : Host) (w : world) :
  (usageTemplate +:+ LF) ∈ stderr (main h (start w)).2 ->
  (exists code, (main h (start w)).1 = Exited code) /\
  (proc_world (main h (start w)).2 = w \/
   exists msg, proc_world (main h (start w)).2 = println msg w).
Proof.
  rewrite main_observable. unfold main_outcome.
  destruct (flag.Parse (main_flags h) (argv h)) as [[[|msg]|] f].
  1,2: intros _; split; [by eexists | by left].
  repeat (destruct (decide _); [intros _; split; [by eexists | right; by eexists]|]).
  destruct (flag.args f) as [|app [|tag rest]].
  1,2: intros _; split; [by eexists | right; by eexists].
  destruct (run _ (host_env h) w) as [[[err|]|msg] w']; cbn [snd stderr].
  - by intros ?%elem_of_nil.
  - by intros ?%elem_of_nil.
  - by intros ?%list_elem_of_singleton%usage_is_no_panic_report.
Qed.

Lemma main_usage_means_untouched_witness :
  let r := main (test_host [] ["svc"]) (start empty_world) in
  (usageTemplate +:+ LF) ∈ stderr r.2 /\
  (exists code, r.1 = Exited code) /\
  (proc_world r.2 = empty_world \/
   exists msg, proc_world r.2 = println msg empty_world).
Proof.
  cbv zeta. split; [vm_compute; left|].
  apply (main_usage_means_untouched (test_host [] ["svc"]) empty_world).
  vm_compute. left.
Defined.

(** X3. Once the flags parse, the three required values are not empty
    and two positional arguments are there, [main] calls [run] with the
    parsed values, the first two positional arguments and the platform,
    and ends as [run] does: it returns when [run] returns [nil]; on an
    error it prints [err.Error()] on standard output, without the usage,
    and exits with status 1; further positional arguments are ignored. *)
Theorem main_follows_run (h : Host) (w : world) (app tag : string)
    (rest : list string) :
  (flag.Parse (main_flags h) (argv h)).1 = None ->
  let f := (flag.Parse (main_flags h) (argv h)).2 in
  value_of f "bucket" <> "" -> value_of f "id" <> "" -> value_of f "key" <> "" ->
  flag.args f = app :: tag :: rest ->
  seen (main h (start w))
  = reported h
      (run (runOps.mk app tag (value_of f "endpoint") (value_of f "bucket")
                      (value_of f "id") (value_of f "key")
                      (getenv_or h "GOOS" (GOOS h))
                      (getenv_or h "GOARCH" (GOARCH h))
                      (value_of f "sha"))
           (host_env h) w).
Proof.
  intros HP f Hb Hi Hk Ha. subst f.
  destruct (flag.Parse (main_flags h) (argv h)) as [err f] eqn:E.
  cbn [fst snd] in *. subst err.
  by apply (main_runs h w f app tag rest).
Qed.

(** The scenario with the digest given on the command line and a third
    positional argument. *)
Lemma main_follows_run_witness :
  let h := test_host []
             ["-bucket"; "releases"; "-id"; "AKIA"; "-key"; "secret";
              "-sha"; hello_sha; "svc"; "v1.0.0"; "ignored"] in
  let f := (flag.Parse (main_flags h) (argv h)).2 in
  ((flag.Parse (main_flags h) (argv h)).1 = None /\
   value_of f "bucket" <> "" /\ value_of f "id" <> "" /\ value_of f "key" <> "" /\
   flag.args f = ["svc"; "v1.0.0"; "ignored"]) /\
  seen (main h (start empty_world))
  = reported h (run (svc_opts hello_sha) (host_env h) empty_world).
Proof.
  cbv zeta. split.
  - split_and!; by vm_compute.
  - apply (main_follows_run
             (test_host []
                ["-bucket"; "releases"; "-id"; "AKIA"; "-key"; "secret";
                 "-sha"; hello_sha; "svc"; "v1.0.0"; "ignored"])
             empty_world "svc" "v1.0.0" ["ignored"]); by vm_compute.
Defined.

(** X4. Flags are read only up to the first argument that is not a flag.
    If the command line is empty or starts with such an argument, every
    flag keeps its default, so the bucket is empty and [main] asks for
    it, whatever follows on the command line. *)
Theorem first_positional_ends_flags (h : Host) (w : world) :
  no_leading_flag (argv h) = true ->
  main h (start w)
  = (Exited 1,
     mkProcess (println "-bucket is required" w)
               (usage_text h (main_flags h))
               (flag.mkFlagSet (flag.formal (main_flags h)) (argv h))).
Proof.
  intros Hl.
  assert (flag.Parse (main_flags h) (argv h)
          = (None, flag.mkFlagSet (flag.formal (main_flags h)) (argv h))) as HP.
  { destruct (argv h) as [|a rest]; [apply Parse_nil | by apply Parse_stops]. }
  by rewrite (main_refuses_bucket h w _ HP eq_refl).
Qed.

(** The flags written after the positional arguments. *)
Lemma first_positional_ends_flags_witness :
  let h := test_host []
             ["svc"; "v1.0.0"; "-bucket"; "releases"; "-id"; "AKIA";
              "-key"; "secret"] in
  no_leading_flag (argv h) = true /\
  main h (start empty_world)
  = (Exited 1,
     mkProcess (println "-bucket is required" empty_world)
               (usage_text h (main_flags h))
               (flag.mkFlagSet (flag.formal (main_flags h)) (argv h))).
Proof.
  cbv zeta. split; [reflexivity|].
  apply (first_positional_ends_flags
           (test_host []
              ["svc"; "v1.0.0"; "-bucket"; "releases"; "-id"; "AKIA";
               "-key"; "secret"]) empty_world).
  reflexivity.
Defined.

(** [main] on the command line [-bucket b -id i -key k APP TAG ...]. *)
Lemma main_three_flags (h : Host) (w : world)
    (b i k app tag : string) (rest : list string) :
  argv h = "-bucket" :: b :: "-id" :: i :: "-key" :: k :: app :: tag :: rest ->
  b <> "" -> i <> "" -> k <> "" -> not_a_flag app = true ->
  seen (main h (start w))
  = reported h
      (run (runOps.mk app tag "s3.amazonaws.com" b i k
                      (getenv_or h "GOOS" (GOOS h))
                      (getenv_or h "GOARCH" (GOARCH h)) "")
           (host_env h) w).
Proof.
  intros Hargv Hb Hi Hk Happ.
  pose proof (Parse_three_flags h b i k app (tag :: rest) Happ) as HP.
  rewrite <- Hargv in HP.
  by rewrite (main_runs h w _ app tag rest HP).
Qed.

(** X5. Values given on the command line win over the environment.  For
    the command line [-bucket b -id i -key k APP TAG ...] with non-empty
    values, [main] runs with exactly these credentials, the default
    endpoint and no digest, whatever [AWS_ACCESS_KEY_ID] and
    [AWS_SECRET_ACCESS_KEY] hold; the platform is [GOOS] and [GOARCH]
    from the environment when they are set and not empty, and that of
    the build otherwise. *)
Theorem flags_override_environment (h : Host) (w : world)
    (b i k app tag : string) (rest : list string) :
  argv h = "-bucket" :: b :: "-id" :: i :: "-key" :: k :: app :: tag :: rest ->
  b <> "" -> i <> "" -> k <> "" -> not_a_flag app = true ->
  seen (main h (start w))
  = reported h
      (run (runOps.mk app tag "s3.amazonaws.com" b i k
                      (getenv_or h "GOOS" (GOOS h))
                      (getenv_or h "GOARCH" (GOARCH h)) "")
           (host_env h) w).
Proof. apply main_three_flags. Qed.

(** Credentials on the command line, others in the environment. *)
Lemma flags_override_environment_witness :
  let h := test_host [("AWS_ACCESS_KEY_ID", "other"); ("AWS_SECRET_ACCESS_KEY", "other");
                      ("GOOS", "darwin")]
             ["-bucket"; "releases"; "-id"; "AKIA"; "-key"; "secret";
              "svc"; "v1.0.0"] in
  not_a_flag "svc" = true /\
  seen (main h (start empty_world))
  = reported h
      (run (runOps.mk "svc" "v1.0.0" "s3.amazonaws.com" "releases" "AKIA" "secret"
                      "darwin" "amd64" "")
           (host_env h) empty_world).
Proof.
  cbv zeta. split; [reflexivity|].
  by apply (flags_override_environment
              (test_host [("AWS_ACCESS_KEY_ID", "other");
                          ("AWS_SECRET_ACCESS_KEY", "other"); ("GOOS", "darwin")]
                 ["-bucket"; "releases"; "-id"; "AKIA"; "-key"; "secret";
                  "svc"; "v1.0.0"])
              empty_world "releases" "AKIA" "secret" "svc" "v1.0.0" []).
Defined.

Lemma getenv_or_empty (h : Host) (key : string) :
  getenv_or h key "" = default "" (environ h !! key).
Proof.
  unfold getenv_or. destruct (decide _) as [|Hn]; [done|].
  apply dec_stable in Hn. by rewrite Hn.
Qed.

(** X6. Without [-id] and [-key] the credentials come from the
    environment.  For the command line [-bucket b APP TAG ...]: if
    [AWS_ACCESS_KEY_ID] is unset or empty [main] asks for [-id]; else if
    [AWS_SECRET_ACCESS_KEY] is unset or empty it asks for [-key]; else it
    runs with the two values of the environment. *)
Theorem environment_supplies_credentials (h : Host) (w : world)
    (b app tag : string) (rest : list string) :
  argv h = "-bucket" :: b :: app :: tag :: rest ->
  b <> "" -> not_a_flag app = true ->
  let i := default "" (environ h !! "AWS_ACCESS_KEY_ID") in
  let k := default "" (environ h !! "AWS_SECRET_ACCESS_KEY") in
  let f := flag.mkFlagSet (flag.formal (flag.Set_ (main_flags h) "bucket" b))
                          (app :: tag :: rest) in
  (i = "" ->
     main h (start w)
     = (Exited 1,
        mkProcess (println "-id is required" w) (usage_text h (main_flags h)) f)) /\
  (i <> "" -> k = "" ->
     main h (start w)
     = (Exited 1,
        mkProcess (println "-key is required" w) (usage_text h (main_flags h)) f)) /\
  (i <> "" -> k <> "" ->
     seen (main h (start w))
     = reported h
         (run (runOps.mk app tag "s3.amazonaws.com" b i k
                         (getenv_or h "GOOS" (GOOS h))
                         (getenv_or h "GOARCH" (GOARCH h)) "")
              (host_env h) w)).
Proof.
  intros Hargv Hb Happ i k f.
  pose proof (Parse_bucket_only h b app (tag :: rest) Happ) as HP.
  rewrite <- Hargv in HP. fold f in HP.
  assert (value_of f "id" = i) as Hid by apply getenv_or_empty.
  assert (value_of f "key" = k) as Hkey by apply getenv_or_empty.
  assert (usage_text h (main_flags h) = usage_text h f) as ->.
  { apply usage_text_signatures. symmetry. apply Set_signatures. }
  split_and!.
  - intros Hi. rewrite main_observable. unfold main_outcome. rewrite HP.
    destruct (decide _); [done|]. destruct (decide _); [done|]. congruence.
  - intros Hi Hk. rewrite main_observable. unfold main_outcome. rewrite HP.
    destruct (decide _); [done|]. destruct (decide _); [congruence|].
    destruct (decide _); [done|]. congruence.
  - intros Hi Hk.
    rewrite (main_runs h w f app tag rest HP); [| done | congruence | congruence | done].
    unfold main_opts. by rewrite Hid, Hkey.
Qed.

(** Both variables set: the scenario runs with them. *)
Lemma environment_supplies_credentials_witness :
  let h := test_host [("AWS_ACCESS_KEY_ID", "AKIA"); ("AWS_SECRET_ACCESS_KEY", "secret")]
             ["-bucket"; "releases"; "svc"; "v1.0.0"] in
  not_a_flag "svc" = true /\
  seen (main h (start empty_world))
  = reported h (run (svc_opts "") (host_env h) empty_world).
Proof.
  cbv zeta. split; [reflexivity|].
  by apply (environment_supplies_credentials
              (test_host [("AWS_ACCESS_KEY_ID", "AKIA");
                          ("AWS_SECRET_ACCESS_KEY", "secret")]
                 ["-bucket"; "releases"; "svc"; "v1.0.0"])
              empty_world "releases" "svc" "v1.0.0" []).
Defined.

Lemma key_entry (q : string -> string) (v s : string) :
  s <> "" ->
  flag.defaults_entry q
    (flag.mkFlag "key"
       "AWS_SECRET_ACCESS_KEY to authenticate to the aws/minio service, defaults to env variable"
       v s)
  = "  -key string" +:+ LF +:+ "    " +:+ TAB +:+
    "AWS_SECRET_ACCESS_KEY to authenticate to the aws/minio service, defaults to env variable" +:+
    " (default " +:+ q s +:+ ")" +:+ LF.
Proof.
  intros Hs. unfold flag.defaults_entry. cbn.
  destruct s as [|c s]; [done|]. cbn.
  rewrite !str_app_assoc. reflexivity.
Qed.

(** X7. The usage text shows the secret key of the environment.  When
    [AWS_SECRET_ACCESS_KEY] is set and not empty, every time [main]
    prints its usage the output has the entry of [-key] with the secret,
    quoted, as its default. *)
Theorem usage_shows_secret_key (h : Host) (w : world) (secret : string) :
  environ h !! "AWS_SECRET_ACCESS_KEY" = Some secret -> secret <> "" ->
  (usageTemplate +:+ LF) ∈ stderr (main h (start w)).2 ->
  ("  -key string" +:+ LF +:+ "    " +:+ TAB +:+
   "AWS_SECRET_ACCESS_KEY to authenticate to the aws/minio service, defaults to env variable" +:+
   " (default " +:+ Quote h secret +:+ ")" +:+ LF)
  ∈ stderr (main h (start w)).2.
Proof.
  intros Hs Hne.
  assert (forall f, signatures f = signatures (main_flags h) ->
            ("  -key string" +:+ LF +:+ "    " +:+ TAB +:+
             "AWS_SECRET_ACCESS_KEY to authenticate to the aws/minio service, defaults to env variable" +:+
             " (default " +:+ Quote h secret +:+ ")" +:+ LF)
            ∈ usage_text h f) as Hin.
  { intros f Hsig. unfold usage_text.
    rewrite (defaults_signatures (Quote h) f (main_flags h) Hsig).
    rewrite <- (key_entry (Quote h) secret secret Hne).
    unfold flag.defaults, main_flags.
    rewrite (getenv_or_set h "AWS_SECRET_ACCESS_KEY" "" secret Hs Hne).
    do 4 right. left. }
  rewrite main_observable. unfold main_outcome.
  pose proof (Parse_signatures (main_flags h) (argv h)) as Hsig.
  destruct (flag.Parse (main_flags h) (argv h)) as [[[|msg]|] f]; cbn [snd] in Hsig.
  - intros _. by apply Hin.
  - intros _. right. by apply Hin.
  - repeat (destruct (decide _); [intros _; by apply Hin|]).
    destruct (flag.args f) as [|app [|tag rest]]; [intros _; by apply Hin.. |].
    destruct (run _ (host_env h) w) as [[[err|]|msg] w']; cbn [snd stderr].
    + by intros ?%elem_of_nil.
    + by intros ?%elem_of_nil.
    + by intros ?%list_elem_of_singleton%usage_is_no_panic_report.
Qed.

Lemma usage_shows_secret_key_witness :
  let h := test_host [("AWS_SECRET_ACCESS_KEY", "s3cr3t")] [] in
  (environ h !! "AWS_SECRET_ACCESS_KEY" = Some "s3cr3t" /\
   (usageTemplate +:+ LF) ∈ stderr (main h (start empty_world)).2) /\
  ("  -key string" +:+ LF +:+ "    " +:+ TAB +:+
   "AWS_SECRET_ACCESS_KEY to authenticate to the aws/minio service, defaults to env variable" +:+
   " (default " +:+ quote_plain "s3cr3t" +:+ ")" +:+ LF)
  ∈ stderr (main h (start empty_world)).2.
Proof.
  cbv zeta. split; [split; [by vm_compute | vm_compute; left]|].
  apply (usage_shows_secret_key
           (test_host [("AWS_SECRET_ACCESS_KEY", "s3cr3t")] []) empty_world "s3cr3t");
    [by vm_compute | by vm_compute | vm_compute; left].
Defined.

Lemma main_flags_without_empty (h : Host) :
  main_flags (without_empty h) = main_flags h.
Proof. unfold main_flags. by rewrite !getenv_or_without_empty. Qed.

(** X8. A variable set to the empty string counts as unset: removing
    such variables from the environment changes nothing in what [main]
    does, be it the credentials ([AWS_ACCESS_KEY_ID],
    [AWS_SECRET_ACCESS_KEY]) or the platform ([GOOS], [GOARCH]). *)
Theorem empty_variable_counts_as_unset (h : Host) (w : world) :
  main (without_empty h) (start w) = main h (start w).
Proof.
  rewrite !main_observable. unfold main_outcome, main_opts, usage_text.
  rewrite main_flags_without_empty, !getenv_or_without_empty.
  reflexivity.
Qed.

(** X9. The object asked for is named after the platform of the
    environment.  For the command line [-bucket b -id i -key k APP TAG]
    and a client that can be built, the first thing [main] does to the
    world is to announce and request
    [APP_TAG_<os>_<arch>.tar.gz] in bucket [b], where [<os>] and
    [<arch>] are [GOOS] and [GOARCH] of the environment when set and not
    empty, and those of the build otherwise. *)
Theorem archive_key_follows_platform (h : Host) (w : world)
    (b i k app tag : string) (rest : list string) :
  argv h = "-bucket" :: b :: "-id" :: i :: "-key" :: k :: app :: tag :: rest ->
  b <> "" -> i <> "" -> k <> "" -> not_a_flag app = true ->
  env_New (host_env h) "s3.amazonaws.com" i k true = None ->
  let name := app +:+ "_" +:+ tag +:+ "_" +:+ getenv_or h "GOOS" (GOOS h) +:+
              "_" +:+ getenv_or h "GOARCH" (GOARCH h) +:+ ".tar.gz" in
  exists later,
    trace (proc_world (main h (start w)).2)
    = trace w ++
      EvStdout ("## Downloading Archive: " +:+ b +:+ "/" +:+ name +:+ LF)
      :: EvGetObject b name :: later.
Proof.
  intros Hargv Hb Hi Hk Happ HN name.
  pose proof (main_three_flags h w b i k app tag rest
                Hargv Hb Hi Hk Happ) as Hm.
  set (opts := runOps.mk app tag "s3.amazonaws.com" b i k
                 (getenv_or h "GOOS" (GOOS h))
                 (getenv_or h "GOARCH" (GOARCH h)) "") in *.
  destruct (run_observable opts (host_env h) w) as (w' & Hr & Ht & _).
  destruct (run_effects_starts (host_env h) opts (files w) HN) as (later & Hev).
  rewrite Hev in Ht. rewrite Hr in Hm.
  assert (tarKey opts = name) as Hname by apply tarKey_eq.
  assert (fmt.Sprintf ("## Downloading Archive: %s/%s" +:+ LF)
            [runOps.bucket opts; tarKey opts]
          = "## Downloading Archive: " +:+ b +:+ "/" +:+ name +:+ LF) as Hline.
  { rewrite Hname. cbn [fmt.Sprintf]. cbn. by rewrite ?str_app_assoc, ?str_app_nil_r. }
  rewrite Hline, Hname in Ht. cbn [runOps.bucket opts] in Ht.
  unfold seen in Hm.
  destruct (run_effects (host_env h) opts (files w)).1.1 as [[err|]|msg];
    cbn [reported] in Hm; injection Hm as _ Hw _; rewrite Hw.
  - exists (later ++ [EvStdout (Error err +:+ LF)]). cbn [println trace].
    rewrite Ht. by rewrite <- !app_assoc.
  - by exists later.
  - by exists later.
Qed.

Lemma archive_key_follows_platform_witness :
  let h := test_host [("GOOS", "darwin")]
             ["-bucket"; "releases"; "-id"; "AKIA"; "-key"; "secret";
              "svc"; "v1.0.0"] in
  (not_a_flag "svc" = true /\
   env_New (host_env h) "s3.amazonaws.com" "AKIA" "secret" true = None) /\
  exists later,
    trace (proc_world (main h (start empty_world)).2)
    = trace empty_world ++
      EvStdout ("## Downloading Archive: releases/svc_v1.0.0_darwin_amd64.tar.gz" +:+ LF)
      :: EvGetObject "releases" "svc_v1.0.0_darwin_amd64.tar.gz" :: later.
Proof.
  cbv zeta. split; [split; reflexivity|].
  by apply (archive_key_follows_platform
              (test_host [("GOOS", "darwin")]
                 ["-bucket"; "releases"; "-id"; "AKIA"; "-key"; "secret";
                  "svc"; "v1.0.0"])
              empty_world "releases" "AKIA" "secret" "svc" "v1.0.0" []).
Defined.

(** X10. When the client cannot be built, nothing is requested or
    printed by [run], and [main] reports the error of [minio.New] as it
    is: for the command line [-bucket b -id i -key k APP TAG], the only
    effect is the line of the error on standard output, and the process
    exits with status 1. *)
Theorem client_failure_is_reported (h : Host) (w : world)
    (b i k app tag e : string) (rest : list string) :
  argv h = "-bucket" :: b :: "-id" :: i :: "-key" :: k :: app :: tag :: rest ->
  b <> "" -> i <> "" -> k <> "" -> not_a_flag app = true ->
  env_New (host_env h) "s3.amazonaws.com" i k true = Some e ->
  seen (main h (start w)) = (Exited 1, println e w, []).
Proof.
  intros Hargv Hb Hi Hk Happ HN.
  rewrite (main_three_flags h w b i k app tag rest
             Hargv Hb Hi Hk Happ).
  unfold run.
  match goal with |- context [minio.New ?a ?b ?c ?d ≫= _] =>
    pose proof (New_step
      (runOps.mk app tag "s3.amazonaws.com" b i k
         (getenv_or h "GOOS" (GOOS h)) (getenv_or h "GOARCH" (GOARCH h)) "")
      (host_env h) w) as HS end.
  cbn [runOps.endpoint runOps.id runOps.key] in *. rewrite HN in HS.
  by rewrite (bind_val _ _ _ _ _ _ HS).
Qed.

Lemma client_failure_is_reported_witness :
  let h := mkHost (mkEnv (fun _ _ _ _ => Some "Endpoint url cannot have fully qualified paths.")
                         (fun _ _ _ => inr "unreachable")
                         (fun _ => None)
                         (fun _ p => (length p, None)))
                  ∅
                  ["-bucket"; "releases"; "-id"; "AKIA"; "-key"; "secret";
                   "svc"; "v1.0.0"]
                  "linux" "amd64" quote_plain "goroutine 1 [running]:" in
  not_a_flag "svc" = true /\
  seen (main h (start empty_world))
  = (Exited 1,
     println "Endpoint url cannot have fully qualified paths." empty_world, []).
Proof.
  cbv zeta. split; [reflexivity|].
  by apply (client_failure_is_reported
              (mkHost (mkEnv (fun _ _ _ _ => Some "Endpoint url cannot have fully qualified paths.")
                         (fun _ _ _ => inr "unreachable")
                         (fun _ => None)
                         (fun _ p => (length p, None)))
                  ∅
                  ["-bucket"; "releases"; "-id"; "AKIA"; "-key"; "secret";
                   "svc"; "v1.0.0"]
                  "linux" "amd64" quote_plain "goroutine 1 [running]:")
              empty_world "releases" "AKIA" "secret" "svc" "v1.0.0" _ []).
Defined.

(** X11. Whenever [main] returns, that is, the process ends with status
    0, the file it saved is empty: the files are those it started with
    plus an empty [APP_TAG_<os>_<arch>.tar.gz], no write has reached the
    file system, and nothing went to standard error. *)
Theorem main_success_leaves_empty_file (h : Host) (w : world) (p : process) :
  main h (start w) = (Returned tt, p) ->
  exists app tag rest,
    flag.args (CommandLine p) = app :: tag :: rest /\
    files (proc_world p)
    = <[app +:+ "_" +:+ tag +:+ "_" +:+ getenv_or h "GOOS" (GOOS h) +:+
        "_" +:+ getenv_or h "GOARCH" (GOARCH h) +:+ ".tar.gz" := []]> (files w) /\
    (exists evs, trace (proc_world p) = trace w ++ evs /\
       Forall (fun e => match e with EvWrite _ _ => False | _ => True end) evs) /\
    stderr p = [].
Proof.
  rewrite main_observable. unfold main_outcome.
  destruct (flag.Parse (main_flags h) (argv h)) as [[[|msg]|] f]; [done | done |].
  repeat (destruct (decide _); [done|]).
  destruct (flag.args f) as [|app [|tag rest]] eqn:Ha; [done | done |].
  destruct (run _ (host_env h) w) as [[[err|]|msg] w'] eqn:Hrun; [done | | done].
  intros [= <-]. cbn [CommandLine proc_world stderr].
  exists app, tag, rest. split; [done|].
  destruct (run_success_saves_empty_file _ _ _ _ Hrun) as [Hf Hev].
  by rewrite Hf, tarKey_eq.
Qed.

Lemma main_success_leaves_empty_file_witness :
  let h := test_host []
             ["-bucket"; "releases"; "-id"; "AKIA"; "-key"; "secret";
              "-sha"; hello_sha; "svc"; "v1.0.0"] in
  let p := (main h (start empty_world)).2 in
  main h (start empty_world) = (Returned tt, p) /\
  exists app tag rest,
    flag.args (CommandLine p) = app :: tag :: rest /\
    files (proc_world p)
    = <[app +:+ "_" +:+ tag +:+ "_" +:+ getenv_or h "GOOS" (GOOS h) +:+
        "_" +:+ getenv_or h "GOARCH" (GOARCH h) +:+ ".tar.gz" := []]> (files empty_world) /\
    (exists evs, trace (proc_world p) = trace empty_world ++ evs /\
       Forall (fun e => match e with EvWrite _ _ => False | _ => True end) evs) /\
    stderr p = [].
Proof.
  cbv zeta. split; [by vm_compute|].
  apply (main_success_leaves_empty_file
           (test_host []
              ["-bucket"; "releases"; "-id"; "AKIA"; "-key"; "secret";
               "-sha"; hello_sha; "svc"; "v1.0.0"]) empty_world).
  by vm_compute.
Defined.

(** X12. When the command line does not parse (an unknown flag, a flag
    without its value, a malformed flag), the message of the [flag]
    package goes to standard error, followed by the usage of this
    program, as [init] has installed it, with the defaults of the flags;
    the process exits with status 2, having printed nothing on standard
    output and touched nothing. *)
Theorem parse_error_prints_usage (h : Host) (w : world) (msg : string) :
  (flag.Parse (main_flags h) (argv h)).1 = Some (flag.failf msg) ->
  main h (start w)
  = (Exited 2,
     mkProcess w ((msg +:+ LF) :: usage_text h (main_flags h))
               (flag.Parse (main_flags h) (argv h)).2).
Proof.
  intros HP. rewrite main_observable. unfold main_outcome.
  rewrite <- usage_text_parsed.
  destruct (flag.Parse (main_flags h) (argv h)) as [err f]. cbn [fst snd] in *.
  by subst err.
Qed.

(** A flag that does not exist, after one that does. *)
Lemma parse_error_prints_usage_witness :
  let h := test_host [] ["-bucket"; "releases"; "-region"; "eu"; "svc"; "v1.0.0"] in
  (flag.Parse (main_flags h) (argv h)).1
  = Some (flag.failf "flag provided but not defined: -region") /\
  main h (start empty_world)
  = (Exited 2,
     mkProcess empty_world
       (("flag provided but not defined: -region" +:+ LF)
          :: usage_text h (main_flags h))
       (flag.Parse (main_flags h) (argv h)).2).
Proof.
  cbv zeta. split; [reflexivity|].
  by apply (parse_error_prints_usage
              (test_host [] ["-bucket"; "releases"; "-region"; "eu"; "svc"; "v1.0.0"])
              empty_world "flag provided but not defined: -region").
Defined.

(** ** Further properties of [download], [generateSha256] and [run] *)

(** X13. [download] makes one request and touches no file.  When the
    object opens and reads to its end, the buffer returned holds exactly
    the bytes of the object, all unread; when the store refuses the
    object, or reading it fails part-way, the error of the store is
    returned as it is and the bytes read so far are dropped. *)
Theorem download_buffers_whole_object
    (c : Client) (b k : string) (env : Env) (w : world) :
  exists r w',
    download c b k env w = (r, w') /\
    trace w' = trace w ++ [EvGetObject b k] /\
    files w' = files w /\
    match env_GetObject env c b k with
    | inl (mkObject d None) =>
        exists buf,
          r = Val (inl buf) /\
          bytes.String buf env w' = (Val (string_of_bytes d), w') /\
          bytes.Len buf env w' = (Val (length d), w')
    | inl (mkObject _ (Some e)) => r = Val (inr (externalError e))
    | inr e => r = Val (inr (externalError e))
    end.
Proof.
  destruct (download_fetch c b k env w) as (w' & Ht & Hf & _ & _ & Hd).
  unfold fetch in Hd.
  destruct (env_GetObject env c b k) as [[d [e|]]|e].
  - by exists (Val (inr (externalError e))), w'.
  - destruct Hd as (Hd & Hb & Hn).
    exists (Val (inl (BufferAt (next w)))), w'. split_and!; try done.
    exists (BufferAt (next w)). split_and!; [done | |].
    + mred. rewrite Hb. by mred.
    + mred. rewrite Hb. mred. by rewrite Nat.sub_0_r.
  - by exists (Val (inr (externalError e))), w'.
Qed.

(** X14. [generateSha256] uses up the buffer it digests.  For a buffer
    holding the bytes [p], the first call returns the SHA-256 of [p] in
    hexadecimal; after it the buffer is empty, and a second call returns
    the digest of no bytes at all.  Nothing is printed and no file is
    touched. *)
Theorem generateSha256_consumes_buffer (p : list byte) (env : Env) (w : world) :
  exists w',
    (b ← bytes.NewBuffer p;
     first ← generateSha256 b;
     left ← bytes.Len b;
     second ← generateSha256 b;
     mret (first, left, second)) env w
    = (Val (inl (digest_of p), 0%nat, inl (digest_of [])), w') /\
    trace w' = trace w /\ files w' = files w.
Proof.
  assert (bytes.NewBuffer p env w
          = (Val (BufferAt (next w)),
             mkWorld (trace w) (files w)
                     (<[next w := OBuffer (mkBuffer p 0)]> (heap w))
                     (S (next w)))) as HB by reflexivity.
  step_with HB.
  match goal with |- context [(generateSha256 _ ≫= _) env ?w1] =>
    destruct (generateSha256_buffer env w1 (next w) (mkBuffer p 0))
      as (w2 & Hg & Ht2 & Hf2 & Hb2 & Hn2);
      [cbn; by rewrite lookup_insert_eq | cbn; lia |] end.
  cbn [trace files heap next buf off] in *. change (drop 0 p) with p in Hg.
  step_with Hg.
  assert (bytes.Len (BufferAt (next w)) env w2 = (Val 0%nat, w2)) as HL.
  { mred. rewrite Hb2. by mred. }
  step_with HL.
  destruct (generateSha256_buffer env w2 (next w) (mkBuffer [] 0))
    as (w3 & Hg3 & Ht3 & Hf3 & _ & _); [done | lia |].
  cbn [buf off] in Hg3. change (drop 0 []) with (@nil byte) in Hg3.
  step_with Hg3.
  exists w3. split_and!; [done | congruence | congruence].
Qed.

(** The expected digest, once the case analysis has named what the
    store answered. *)
Ltac resolve_expected :=
  unfold expected_digest;
  match goal with
  | |- context [decide (runOps.sha ?o = "")] =>
      destruct (decide (runOps.sha o = "")); [|try done]
  end;
  try done;
  try (match goal with
       | H : fetch _ _ _ (checksumKey _) = _ |- _ => rewrite H
       end;
       rewrite <- Fields_head;
       match goal with
       | H : strings.Fields _ = _ |- _ => rewrite H
       end;
       cbn [head]).

Lemma run_effects_nil (env : Env) (opts : runOps.t) (fs : gmap string (list byte)) :
  (run_effects env opts fs).1.1 = Val None <->
  exists d,
    env_New env (runOps.endpoint opts) (runOps.id opts) (runOps.key opts) true = None /\
    fetch env (client_of opts) (runOps.bucket opts) (tarKey opts) = inl d /\
    expected_digest env opts = Some (digest_of d) /\
    env_Create env (tarKey opts) = None.
Proof.
  split.
  - run_effects_cases; intros [=]; eexists; (split_and!; [done | done | | done]);
      resolve_expected; f_equal; by apply dec_stable.
  - intros (d & HN & HA & HE & HC).
    rewrite (run_effects_compared env opts fs d _ HN HA HE), HC.
    by destruct (decide _).
Qed.

(** X15. [run] returns [nil] exactly when the client was built, the
    archive was fetched, the expected digest (the [-sha] value, or else
    the first token of the checksum object) is the SHA-256 of the bytes
    fetched, in lower-case hexadecimal, and the file could be created.
    So a return of [nil] always stands for a verified archive. *)
Theorem run_nil_iff_verified (env : Env) (opts : runOps.t) (w : world) :
  (run opts env w).1 = Val None <->
  exists d,
    env_New env (runOps.endpoint opts) (runOps.id opts) (runOps.key opts) true = None /\
    fetch env (client_of opts) (runOps.bucket opts) (tarKey opts) = inl d /\
    expected_digest env opts = Some (digest_of d) /\
    env_Create env (tarKey opts) = None.
Proof.
  destruct (run_observable opts env w) as (w' & Hr & _ & _).
  rewrite Hr. cbn [fst]. apply run_effects_nil.
Qed.

Lemma download_errors_not_mismatch (bucket key : string) :
  fmt.Errorf "Can't download archive from %s/%s" [bucket; key] <> errChecksumMismatch /\
  fmt.Errorf "Can't download checksum from %s/%s" [bucket; key] <> errChecksumMismatch.
Proof.
  unfold fmt.Errorf, errChecksumMismatch, errors.New. cbn [fmt.Sprintf].
  split; by intros [=].
Qed.

(** X16. [run] returns [errChecksumMismatch] exactly when the client was
    built, the archive was fetched, an expected digest was found and it
    differs from the digest of the bytes fetched; no other failure is
    reported with this error. *)
Theorem run_mismatch_iff_digests_differ (env : Env) (opts : runOps.t) (w : world) :
  (run opts env w).1 = Val (Some errChecksumMismatch) <->
  exists d E,
    env_New env (runOps.endpoint opts) (runOps.id opts) (runOps.key opts) true = None /\
    fetch env (client_of opts) (runOps.bucket opts) (tarKey opts) = inl d /\
    expected_digest env opts = Some E /\
    E <> digest_of d.
Proof.
  destruct (run_observable opts env w) as (w' & Hr & _ & _).
  rewrite Hr. cbn [fst]. split.
  - destruct (download_errors_not_mismatch (runOps.bucket opts) (tarKey opts))
      as [HA _].
    destruct (download_errors_not_mismatch (runOps.bucket opts) (checksumKey opts))
      as [_ HC].
    run_effects_cases; intros Herr;
      try discriminate Herr;
      try (by exfalso; apply HA; congruence);
      try (by exfalso; apply HC; congruence);
      do 2 eexists; (split_and!; [done | done | | eassumption]);
      by resolve_expected.
  - intros (d & E & HN & HA & HE & Hne).
    rewrite (run_effects_compared env opts _ d E HN HA HE).
    by destruct (decide _).
Qed.

(** X17. The only panic of [run] is the index into an empty
    [strings.Fields]: [run] panics exactly when the client was built,
    the archive was fetched, no digest was given, and the checksum
    object was fetched but holds no token. *)
Theorem run_panics_iff_no_token (env : Env) (opts : runOps.t) (w : world)
    (msg : string) :
  (run opts env w).1 = Panic msg <->
  msg = "runtime error: index out of range [0] with length 0" /\
  runOps.sha opts = "" /\
  env_New env (runOps.endpoint opts) (runOps.id opts) (runOps.key opts) true = None /\
  (exists d, fetch env (client_of opts) (runOps.bucket opts) (tarKey opts) = inl d) /\
  exists text,
    fetch env (client_of opts) (runOps.bucket opts) (checksumKey opts) = inl text /\
    first_token (string_of_bytes text) = None.
Proof.
  destruct (run_observable opts env w) as (w' & Hr & _ & _).
  rewrite Hr. cbn [fst]. split.
  - run_effects_cases; intros [= <-];
      (split_and!; [done | done | done | by eexists |]);
      eexists; (split; [done|]); rewrite <- Fields_head;
      by match goal with H : strings.Fields _ = _ |- _ => rewrite H end.
  - intros (-> & Hsha & HN & (d & HA) & text & HC & Htok).
    rewrite <- Fields_head in Htok.
    unfold run_effects, remoteSha_effects. rewrite HN, HA, HC.
    destruct (decide (runOps.sha opts = "")); [|done].
    by destruct (strings.Fields (string_of_bytes text)).
Qed.
